(** * Shallow embedding of the cothority networking library and simulation driver

    Sources embedded here:
    - [src/lib/network/net.go]  (package [network]: hosts, connections,
      identities and the identity negotiation of the secure host);
    - [src/simul/cothority/cothority.go]  (the simulation driver [main]).

    Go values are modelled as follows.  [int] is a 64-bit two's complement
    integer kept in [Z] with its wrap-around written out.  [error] values are
    an inductive type whose constructors are the package-level sentinels (so
    that [err == ErrClosed] is constructor equality) plus freshly built
    errors.  Objects reached through pointers ([*TcpConn]) live in a heap held
    by the [World]; a pointer is an index into that heap.  Everything the code
    does to its surroundings (dialing, sleeping, printing, spawning a handler
    goroutine) is recorded as an [Event] in the world's trace.  A Go panic is
    the [Panic] outcome of the monad [M]; [defer]/[recover] is [defer_recover]. *)

From Stdlib Require Import ZArith List String Ascii Bool Lia.
From stdpp Require Import base list strings.
Import ListNotations.
Local Open Scope string_scope.
Local Open Scope list_scope.
Local Open Scope Z_scope.

(** ** Go's [int] on a 64-bit platform *)
Module GoInt.
Definition max_int : Z := 2 ^ 63 - 1.
Definition min_int : Z := - 2 ^ 63.
(** Two's complement wrap-around of a mathematical integer. *)
Definition wrap (z : Z) : Z := (z + 2 ^ 63) mod 2 ^ 64 - 2 ^ 63.
Definition add (x y : Z) : Z := wrap (x + y).
Definition mul (x y : Z) : Z := wrap (x * y).
Definition in_range (z : Z) : Prop := min_int <= z <= max_int.
End GoInt.

(** ** Errors (net.go lines 40-47 and the errors built with [fmt.Errorf]) *)
Inductive error : Type :=
  | ErrClosed | ErrEOF | ErrCanceled | ErrTemp | ErrTimeout | ErrUnknown
  | io_EOF
  | errorString (msg : string)
  | netError (msg : string) (temporary timeout : bool).

(** [err.Error()] *)
Definition Error (e : error) : string :=
  match e with
  | ErrClosed => "Connection Closed"
  | ErrEOF => "EOF"
  | ErrCanceled => "Operation Canceled"
  | ErrTemp => "Temporary Error"
  | ErrTimeout => "Timeout Error"
  | ErrUnknown => "Unknown Error"
  | io_EOF => "EOF"
  | errorString m => m
  | netError m _ _ => m
  end.

(** [strings.Contains] *)
Fixpoint Contains (s substr : string) : bool :=
  String.prefix substr s ||
  match s with
  | EmptyString => false
  | String _ s' => Contains s' substr
  end.

Definition is_io_EOF (e : error) : bool :=
  match e with io_EOF => true | _ => false end.

(** [handleError] (net.go lines 214-234) *)
Definition handleError (err : error) : error :=
  if Contains (Error err) "use of closed" then ErrClosed
  else if Contains (Error err) "canceled" then ErrCanceled
  else if is_io_EOF err || Contains (Error err) "EOF" then ErrEOF
  else match err with
       | netError _ temporary timeout =>
           if temporary then ErrTemp
           else if timeout then ErrTimeout
           else ErrUnknown
       | _ => ErrUnknown
       end.

(** ** Constants (net.go lines 36-38); durations are nanoseconds *)
Definition Second : Z := 1000000000.
Definition maxRetry : nat := 10.
Definition waitRetry : Z := 1 * Second.
Definition timeOut : Z := 5 * Second.

Definition bytes := list Byte.byte.

(** ** The operating-system connection [net.Conn]

    The remote side is a script: what each coming [Read] and [Write] call
    returns, and what [Close] returns.  When the read script is used up the
    peer has closed its end and [Read] reports [io.EOF]. *)
Module NetConn.
Record t : Type := mk {
  reads : list (bytes * option error);
  writes : list (option error);
  close_result : option error;
  sent : list bytes;
  deadline : option Z;
  os_closed : bool
}.

Definition use_of_closed : error :=
  netError "use of closed network connection" false false.

(** [n, err := c.Read(b)] with [len(b) = cap]: the bytes put in [b[:n]],
    the error, and the connection afterwards. *)
Definition Read (cap : nat) (c : t) : bytes * option error * t :=
  if os_closed c then ([], Some use_of_closed, c)
  else match reads c with
       | [] => ([], Some io_EOF, c)
       | (data, err) :: rest =>
           (take cap data, err,
            mk rest (writes c) (close_result c) (sent c) (deadline c) (os_closed c))
       end.

Definition SetWriteDeadline (d : Z) (c : t) : t :=
  mk (reads c) (writes c) (close_result c) (sent c) (Some d) (os_closed c).

Definition Write (b : bytes) (c : t) : option error * t :=
  if os_closed c then (Some use_of_closed, c)
  else match writes c with
       | [] => (None, mk (reads c) [] (close_result c) (sent c ++ [b]) (deadline c) false)
       | Some e :: rest =>
           (Some e, mk (reads c) rest (close_result c) (sent c) (deadline c) false)
       | None :: rest =>
           (None, mk (reads c) rest (close_result c) (sent c ++ [b]) (deadline c) false)
       end.

Definition Close (c : t) : option error * t :=
  if os_closed c then (Some use_of_closed, c)
  else (close_result c,
        mk (reads c) (writes c) (close_result c) (sent c) (deadline c) true).
End NetConn.

(** ** Outcomes of Go code: a value, or a panic carrying its message *)
Inductive result (A : Type) : Type :=
  | Ok (a : A)
  | Panic (v : string).
Arguments Ok {A} a.
Arguments Panic {A} v.

(** [len(l)] as a Go [int] *)
Definition len {A : Type} (l : list A) : Z := Z.of_nat (length l).

(** [l[i]]: Go panics when the index is outside the slice. *)
Definition index {A : Type} (l : list A) (i : Z) : result A :=
  if (i <? 0) || (len l <=? i) then Panic "index out of range"
  else match l !! Z.to_nat i with
       | Some x => Ok x
       | None => Panic "index out of range"
       end.

(** [uuid.UUID] is [16]byte, compared by value; kept as the 128-bit number. *)
Definition UUID : Type := N.
(** [abstract.Point], an opaque group element, kept in its marshalled form. *)
Definition Point : Type := bytes.

(** ** Identity (net.go lines 313-341) *)
Module Identity.
Record t : Type := mk {
  Public : Point;
  Id : UUID;
  Addresses : list string;
  iter : Z
}.

(** [func (id *Identity) First() string] *)
Definition First (id : t) : result string :=
  if len (Addresses id) >? 0 then index (Addresses id) 0
  else Ok "".

(** [func (id *Identity) Next() string]: the address returned and the
    identity with its cursor moved. *)
Definition Next (id : t) : result (string * t) :=
  if len (Addresses id) <? GoInt.add (iter id) 1 then Ok ("", id)
  else match index (Addresses id) (iter id) with
       | Panic v => Panic v
       | Ok addr =>
           Ok (addr, mk (Public id) (Id id) (Addresses id) (GoInt.add (iter id) 1))
       end.

(** [k] successive calls of [Next]: the addresses returned, in call order,
    and the identity afterwards. *)
Fixpoint Next_calls (k : nat) (id : t) : result (list string * t) :=
  match k with
  | O => Ok ([], id)
  | S k' =>
      match Next id with
      | Panic v => Panic v
      | Ok (a, id1) =>
          match Next_calls k' id1 with
          | Panic v => Panic v
          | Ok (l, id2) => Ok (a :: l, id2)
          end
      end
  end.

(** The cursor of an identity only ever holds a position of its own list,
    and a Go slice of strings has fewer than [max_int] elements. *)
Definition cursor_ok (id : t) : Prop :=
  0 <= iter id <= len (Addresses id) /\ len (Addresses id) < GoInt.max_int.
End Identity.

(** ** Messages.

    Modelled from the spec: the declarations of [ProtocolMessage],
    [ApplicationMessage] and [EmptyApplicationMessage] are in a file of
    package [network] that is not under src/.  The spec gives the envelope as
    "{type identifier, raw payload, sender identity attached after decode}";
    net.go uses the fields [From], [Identity], [MsgType] and [Msg]. *)
Inductive ProtocolMessage : Type :=
  | PMnil
  | PMIdentity (id : Identity.t)
  | PMIdentityPtr (id : Identity.t)
  | PMOther (raw : bytes).

Record ApplicationMessage : Type := mkAM {
  From : string;
  AM_Identity : Identity.t;
  MsgType : UUID;
  Msg : ProtocolMessage
}.

(** Go's zero values *)
Definition zero_Identity : Identity.t := Identity.mk [] 0%N [] 0.
Definition zero_ApplicationMessage : ApplicationMessage :=
  mkAM "" zero_Identity 0%N PMnil.

(** [am.UnmarshalBinary(buf)] either returns, leaving [am] changed and giving
    an error or nil, or panics part-way, [am] being as far as it got. *)
Inductive UnmarshalOutcome : Type :=
  | Returned (am : ApplicationMessage) (err : option error)
  | Panicked (am : ApplicationMessage) (v : string).

(** What net.go calls but does not define: the codec of package [network]
    (other files), [uuid] (satori/go.uuid), [abstract.Point.String] and
    [cliutils.GlobalBind]. *)
Class Env : Type := {
  IdentityType : UUID;
  EmptyApplicationMessage : ApplicationMessage;
  GlobalBind : string -> string;
  uuid_String : UUID -> string;
  uuid_NewV5_URL : string -> UUID;
  Point_String : Point -> string;
  newApplicationMessage : ProtocolMessage -> ApplicationMessage + error;
  MarshalBinary : ApplicationMessage -> bytes + error;
  UnmarshalBinary : ApplicationMessage -> bytes -> UnmarshalOutcome
}.

(** [NewIdentity] (net.go lines 346-353) *)
Definition NewIdentity `{Env} (public : Point) (addresses : list string) : Identity.t :=
  let url := ("https://dedis.epfl.ch/id/" ++ Point_String public)%string in
  Identity.mk public (uuid_NewV5_URL url) addresses 0.

(** ** The listening socket [net.Listener]: a script of what each coming
    [Accept] returns (a connection and its remote address, or an error). *)
Module Listener.
Record t : Type := mk {
  accepts : list (NetConn.t * string + error);
  close_result : option error;
  ln_closed : bool
}.

Definition Close (l : t) : option error * t :=
  if ln_closed l then (Some NetConn.use_of_closed, l)
  else (close_result l, mk (accepts l) (close_result l) true).
End Listener.

(** ** The world: heap, clock, dialer and trace *)

(** A pointer is [nil] or the position, counted from 1, of a heap cell. *)
Definition ptr : Type := nat.
Definition nil : ptr := 0%nat.

Inductive Arg : Type :=
  | AStr (s : string)
  | AInt (z : Z)
  | AUuid (u : UUID).

Inductive Event : Type :=
  | EvDial (name : string) (ok : bool)
  | EvSleep (d : Z)
  | EvPrint (format : string) (args : list Arg)
  | EvGo (conn : ptr) (peer : option Identity.t).

Section WorldMonad.
(** [Obj] is the type of the objects the heap holds. *)
Context {Obj : Type}.

Record World : Type := mkWorld {
  heap : list Obj;
  clock : Z;
  (** what the [n]-th call of [net.Dial] returns for an address *)
  dialer : nat -> string -> NetConn.t + error;
  dials : nat;
  (** what [net.Listen] returns for an address *)
  binder : string -> Listener.t + error;
  trace : list Event
}.

Definition M (A : Type) : Type := World -> result A * World.

Definition ret {A : Type} (a : A) : M A := fun w => (Ok a, w).
Definition bind {A B : Type} (m : M A) (k : A -> M B) : M B :=
  fun w => match m w with
           | (Ok a, w1) => k a w1
           | (Panic v, w1) => (Panic v, w1)
           end.
Definition panic {A : Type} (v : string) : M A := fun w => (Panic v, w).

(** [defer func() { if e := recover(); e != nil { h e } }()] around a body
    whose results are unnamed: when the body panics the handler runs and the
    function returns the zero values of its result types. *)
Definition defer_recover {A : Type} (zero : A) (h : string -> M unit) (body : M A) : M A :=
  fun w => match body w with
           | (Ok a, w1) => (Ok a, w1)
           | (Panic v, w1) =>
               match h v w1 with
               | (Ok _, w2) => (Ok zero, w2)
               | (Panic v', w2) => (Panic v', w2)
               end
           end.

Definition emit (e : Event) : M unit :=
  fun w => (Ok tt, mkWorld (heap w) (clock w) (dialer w) (dials w) (binder w) (trace w ++ [e])).

(** [time.Sleep(d)] *)
Definition time_Sleep (d : Z) : M unit :=
  fun w => (Ok tt, mkWorld (heap w) (clock w + d) (dialer w) (dials w) (binder w)
                           (trace w ++ [EvSleep d])).

(** [time.Now()] *)
Definition time_Now : M Z := fun w => (Ok (clock w), w).

(** [net.Dial("tcp", name)] *)
Definition net_Dial (name : string) : M (NetConn.t + error) :=
  fun w => let r := dialer w (dials w) name in
           (Ok r, mkWorld (heap w) (clock w) (dialer w) (S (dials w)) (binder w)
                          (trace w ++ [EvDial name (match r with inl _ => true | inr _ => false end)])).

(** [net.Listen("tcp", addr)] *)
Definition net_Listen (addr : string) : M (Listener.t + error) :=
  fun w => (Ok (binder w addr), w).

(** [&obj]: a new heap cell *)
Definition alloc (o : Obj) : M ptr :=
  fun w => (Ok (S (length (heap w))),
            mkWorld (heap w ++ [o]) (clock w) (dialer w) (dials w) (binder w) (trace w)).

(** [*p] *)
Definition cell (p : ptr) (w : World) : option Obj :=
  match p with
  | O => None
  | S i => heap w !! i
  end.

Definition nil_dereference : string :=
  "invalid memory address or nil pointer dereference".

Definition deref (p : ptr) : M Obj :=
  fun w => match cell p w with
           | Some o => (Ok o, w)
           | None => (Panic nil_dereference, w)
           end.

(** [*p = o] *)
Definition assign (p : ptr) (o : Obj) : M unit :=
  fun w => match cell p w with
           | Some _ => (Ok tt, mkWorld (<[pred p:=o]> (heap w)) (clock w) (dialer w)
                                       (dials w) (binder w) (trace w))
           | None => (Panic nil_dereference, w)
           end.
End WorldMonad.
Arguments World Obj : clear implicits.
Arguments M Obj A : clear implicits.

Notation "x <- m ;; k" := (bind m (fun x => k))
  (at level 100, m at next level, right associativity).

Definition nl : string := String (ascii_of_nat 10) EmptyString.

(** ** TcpConn (net.go lines 193-308) *)
Module TcpConn.
(** The [host] back-pointer is left out: net.go reads only
    [c.host.constructors] through it, which is part of [Env] here. *)
Record t : Type := mk {
  Endpoint : string;
  Conn : NetConn.t;
  closed : bool
}.

Definition bufferSize : nat := 4096.

(** [func (c *TcpConn) Remote() string] *)
Definition Remote (c : ptr) : M t string :=
  o <- deref c ;; ret (Endpoint o).

(** The read loop of [Receive] (lines 248-260): the bytes gathered, the
    error the loop returned with (already classified) or [None] when it left
    through [break], and the socket afterwards.  [fuel] bounds the number of
    iterations; [None] means the bound was reached. *)
Fixpoint read_loop (fuel : nat) (nc : NetConn.t) (buffer : bytes)
  : option (bytes * option error * NetConn.t) :=
  match fuel with
  | O => None
  | S fuel' =>
      let '(b, err, nc1) := NetConn.Read bufferSize nc in
      let buffer1 := (buffer ++ b)%list in
      match err with
      | Some e => Some (buffer1, Some (handleError e), nc1)
      | None =>
          if (length b <? bufferSize)%nat then Some (buffer1, None, nc1)
          else read_loop fuel' nc1 buffer1
      end
  end.

Section WithEnv.
Context `{Env}.

(** [func (c *TcpConn) Receive(ctx) (ApplicationMessage, error)] *)
Definition Receive (c : ptr) : M t (ApplicationMessage * option error) :=
  o <- deref c ;;
  let am := zero_ApplicationMessage in
  match read_loop (S (length (NetConn.reads (Conn o)))) (Conn o) [] with
  | None => panic "read loop did not end"
  | Some (buffer, rerr, nc1) =>
      _ <- assign c (mk (Endpoint o) nc1 (closed o)) ;;
      match rerr with
      | Some e => ret (EmptyApplicationMessage, Some e)
      | None =>
          let out := UnmarshalBinary am buffer in
          let am1 := match out with Returned a _ => a | Panicked a _ => a end in
          defer_recover (zero_ApplicationMessage, None)
            (fun e =>
               emit (EvPrint "Error Unmarshalling %s: %dbytes : %v\n"
                             [AUuid (MsgType am1); AInt (len buffer); AStr e]))
            (match out with
             | Panicked _ e => panic e
             | Returned _ (Some err) =>
                 ret (EmptyApplicationMessage,
                      Some (errorString ("Error unmarshaling message type "
                                         ++ uuid_String (MsgType am1) ++ ": "
                                         ++ Error err)%string))
             | Returned _ None =>
                 from <- Remote c ;;
                 ret (mkAM from (AM_Identity am1) (MsgType am1) (Msg am1), None)
             end)
      end
  end.

(** [func (c *TcpConn) Send(ctx, obj ProtocolMessage) error] *)
Definition Send (c : ptr) (obj : ProtocolMessage) : M t (option error) :=
  match newApplicationMessage obj with
  | inr err =>
      ret (Some (errorString ("Error converting packet: " ++ Error err ++ nl)%string))
  | inl am =>
      match MarshalBinary am with
      | inr err =>
          ret (Some (errorString ("Error marshaling  message: " ++ Error err)%string))
      | inl b =>
          o <- deref c ;;
          now <- time_Now ;;
          let nc1 := NetConn.SetWriteDeadline (now + timeOut) (Conn o) in
          let '(werr, nc2) := NetConn.Write b nc1 in
          _ <- assign c (mk (Endpoint o) nc2 (closed o)) ;;
          match werr with
          | Some e => ret (Some (handleError e))
          | None => ret None
          end
      end
  end.
End WithEnv.

(** [func (c *TcpConn) Close() error] *)
Definition Close (c : ptr) : M t (option error) :=
  o <- deref c ;;
  if closed o then ret None
  else
    let '(err, nc1) := NetConn.Close (Conn o) in
    _ <- assign c (mk (Endpoint o) nc1 true) ;;
    match err with
    | Some e => ret (Some (handleError e))
    | None => ret None
    end.
End TcpConn.

Abbreviation W := (World TcpConn.t).
Abbreviation Go := (M TcpConn.t).

(** A Go channel used only with [close] and a non-blocking receive. *)
Inductive chan : Type := chan_open | chan_closed.

(** What a call that may never come back did. *)
Inductive Outcome (A : Type) : Type :=
  | Returns (a : A)
  | Blocks.
Arguments Returns {A} a.
Arguments Blocks {A}.

(** ** TcpHost (net.go lines 72-189) *)
Module TcpHost.
(** [peers] is Go's [map[string]Conn] as an association list with distinct
    keys.  Go leaves the order of [range] over a map unspecified: the order
    of the list stands for the order a [range] takes. *)
Record t : Type := mk {
  peers : list (string * ptr);
  listener : option Listener.t;
  quit : chan;
  closed : bool
}.

(** [NewTcpHost] *)
Definition NewTcpHost : t := mk [] None chan_open false.

(** [m[k] = v] *)
Fixpoint map_set (m : list (string * ptr)) (k : string) (v : ptr) : list (string * ptr) :=
  match m with
  | [] => [(k, v)]
  | (k', v') :: m' =>
      if String.eqb k' k then (k, v) :: m' else (k', v') :: map_set m' k v
  end.

(** The [for i := 0; i < maxRetry; i++] loop of [openTcpConn], [n]
    iterations left, with the variables [conn] and [err]. *)
Fixpoint dial_loop (n : nat) (name : string) (conn : option NetConn.t) (err : option error)
  : Go (option NetConn.t * option error) :=
  match n with
  | O => ret (conn, err)
  | S n' =>
      r <- net_Dial name ;;
      match r with
      | inr e =>
          _ <- time_Sleep waitRetry ;;
          _ <- time_Sleep waitRetry ;;
          dial_loop n' name None (Some e)
      | inl c => ret (Some c, None)
      end
  end.

(** [func (t *TcpHost) openTcpConn(name string)], returning a [*TcpConn]
    and an [error] *)
Definition openTcpConn (name : string) : Go (ptr * option error) :=
  x <- dial_loop maxRetry name None None ;;
  match x with
  | (None, _) =>
      ret (nil, Some (errorString ("Could not connect to " ++ name ++ ".")%string))
  | (Some conn, err) =>
      c <- alloc (TcpConn.mk name conn false) ;;
      ret (c, err)
  end.

(** [func (t *TcpHost) Open(name string) (Conn, error)] *)
Definition Open (h : t) (name : string) : Go (t * ptr * option error) :=
  x <- openTcpConn name ;;
  match x with
  | (_, Some err) => ret (h, nil, Some err)
  | (c, None) =>
      ret (mk (map_set (peers h) name c) (listener h) (quit h) (closed h), c, None)
  end.

(** The accept loop of [listen] (lines 152-169) over the accept script. *)
Fixpoint accept_loop (script : list (NetConn.t * string + error)) (h : t)
    (fn : ptr -> Go unit) : Go (t * Outcome (option error)) :=
  match script with
  | [] => ret (h, Blocks)
  | inr _ :: rest =>
      match quit h with
      | chan_closed => ret (h, Returns None)
      | chan_open => accept_loop rest h fn
      end
  | inl (conn, remote) :: rest =>
      c <- alloc (TcpConn.mk remote conn false) ;;
      let h1 := mk (map_set (peers h) remote c) (listener h) (quit h) (closed h) in
      _ <- fn c ;;
      accept_loop rest h1 fn
  end.

Section WithEnv.
Context `{Env}.

(** [func (t *TcpHost) listen(addr string, fn) error], [fn] taking a
  [*TcpConn] *)
Definition listen (h : t) (addr : string) (fn : ptr -> Go unit)
  : Go (t * Outcome (option error)) :=
  let global := GlobalBind addr in
  r <- net_Listen global ;;
  match r with
  | inr _ =>
      ret (h, Returns (Some (errorString
             ("Error opening listener on address " ++ addr)%string)))
  | inl ln =>
      let h1 := mk (peers h) (Some ln) (quit h) (closed h) in
      accept_loop (Listener.accepts ln) h1 fn
  end.

(** [func (t *TcpHost) Listen(addr string, fn func(Conn)) error] *)
Definition Listen (h : t) (addr : string) : Go (t * Outcome (option error)) :=
  let receiver := fun tc : ptr => emit (EvGo tc None) in
  listen h addr receiver.
End WithEnv.

(** The [for _, c := range t.peers] loop of [Close]: [Some] is the error the
    loop returned with. *)
Fixpoint close_peers (l : list (string * ptr)) : Go (option error) :=
  match l with
  | [] => ret None
  | (_, c) :: rest =>
      err <- TcpConn.Close c ;;
      match err with
      | Some e => ret (Some (handleError e))
      | None => close_peers rest
      end
  end.

(** [func (t *TcpHost) Close() error] *)
Definition Close (h : t) : Go (t * option error) :=
  if closed h then ret (h, None)
  else
    let h1 := mk (peers h) (listener h) (quit h) true in
    r <- close_peers (peers h1) ;;
    match r with
    | Some e => ret (h1, Some e)
    | None =>
        match quit h1 with
        | chan_closed => panic "close of closed channel"
        | chan_open =>
            let h2 := mk (peers h1) (listener h1) chan_closed (closed h1) in
            match listener h2 with
            | Some ln =>
                let '(e, ln1) := Listener.Close ln in
                ret (mk (peers h2) (Some ln1) (quit h2) (closed h2), e)
            | None => ret (h2, None)
            end
        end
    end.
End TcpHost.

#[global] Instance error_eq_dec : EqDecision error.
Proof. solve_decision. Defined.

(** ** SecureTcpConn (net.go lines 454-508) *)
Module SecureTcpConn.
(** [tcpConn] is the embedded [*TcpConn].  [hostIdentity] is
    [sc.SecureTcpHost.Identity], the one field net.go reads through the
    embedded host pointer.  [identity] is the peer's identity. *)
Record t : Type := mk {
  tcpConn : ptr;
  hostIdentity : Identity.t;
  identity : Identity.t
}.

Section WithEnv.
Context `{Env}.

(** [func (sc *SecureTcpConn) negotiateListen() error] *)
Definition negotiateListen (sc : t) : Go (t * option error) :=
  serr <- TcpConn.Send (tcpConn sc) (PMIdentityPtr (hostIdentity sc)) ;;
  match serr with
  | Some err =>
      ret (sc, Some (errorString
             ("Error while sending indentity during negotiation:" ++ Error err)%string))
  | None =>
      x <- TcpConn.Receive (tcpConn sc) ;;
      match x with
      | (_, Some err) =>
          ret (sc, Some (errorString
                 ("Error while receiving identity during negotiation "
                  ++ Error err)%string))
      | (nm, None) =>
          if negb (N.eqb (MsgType nm) IdentityType) then
            ret (sc, Some (errorString
                   ("Received wrong type during negotiation "
                    ++ uuid_String (MsgType nm))%string))
          else
            match Msg nm with
            | PMIdentity id => ret (mk (tcpConn sc) (hostIdentity sc) id, None)
            | _ => panic "interface conversion: interface {} is not network.Identity"
            end
      end
  end.

(** [func (sc *SecureTcpConn) negotiateOpen(id Identity) error] *)
Definition negotiateOpen (sc : t) (id : Identity.t) : Go (t * option error) :=
  x <- negotiateListen sc ;;
  match x with
  | (sc1, Some err) => ret (sc1, Some err)
  | (sc1, None) =>
      if negb (N.eqb (Identity.Id (identity sc1)) (Identity.Id id)) then
        ret (sc1, Some (errorString
               "Identity received during negotiation is wrong. WARNING"))
      else ret (sc1, None)
  end.

(** [func (sc *SecureTcpConn) Receive(ctx) (ApplicationMessage, error)] *)
Definition Receive (sc : t) : Go (ApplicationMessage * option error) :=
  x <- TcpConn.Receive (tcpConn sc) ;;
  let '(nm, err) := x in
  ret (mkAM (From nm) (identity sc) (MsgType nm) (Msg nm), err).
End WithEnv.

(** [sc.Close()] is the promoted [TcpConn.Close]. *)
Definition Close (sc : t) : Go (option error) := TcpConn.Close (tcpConn sc).
End SecureTcpConn.

(** ** SecureTcpHost (net.go lines 371-452) *)
Module SecureTcpHost.
(** [tcpHost] is the embedded [*TcpHost], [HostIdentity] the field
    [Identity]; the private key is not used by net.go and left out. *)
Record t : Type := mk {
  tcpHost : TcpHost.t;
  HostIdentity : Identity.t;
  IdToAddr : list (UUID * string);
  workingAddress : string
}.

(** [NewSecureTcpHost] *)
Definition NewSecureTcpHost (id : Identity.t) : result t :=
  match Identity.First id with
  | Ok a => Ok (mk TcpHost.NewTcpHost id [] a)
  | Panic v => Panic v
  end.

(** The [for _, addr := range id.Addresses] loop of [Open]: the connection
    of the first address that [openTcpConn] could open. *)
Fixpoint open_loop (addrs : list string) : Go (option ptr) :=
  match addrs with
  | [] => ret None
  | addr :: rest =>
      x <- TcpHost.openTcpConn addr ;;
      match x with
      | (_, Some _) => open_loop rest
      | (c, None) => ret (Some c)
      end
  end.

Section WithEnv.
Context `{Env}.

(** [func (st *SecureTcpHost) Open(id Identity) (SecureConn, error)] *)
Definition Open (st : t) (id : Identity.t)
  : Go (option SecureTcpConn.t * option error) :=
  r <- open_loop (Identity.Addresses id) ;;
  match r with
  | None =>
      ret (None, Some (errorString
             "Could not connect to any address tied to this identity"))
  | Some c =>
      let secure := SecureTcpConn.mk c (HostIdentity st) id in
      x <- SecureTcpConn.negotiateOpen secure id ;;
      let '(secure1, err) := x in
      ret (Some secure1, err)
  end.

(** The closure [receiver] of [Listen] (lines 399-411): [go fn(stc)] is
    the event [EvGo]. *)
Definition receiver (st : t) (c : ptr) : Go unit :=
  let stc := SecureTcpConn.mk c (HostIdentity st) zero_Identity in
  x <- SecureTcpConn.negotiateListen stc ;;
  match x with
  | (stc1, Some _) =>
      _ <- emit (EvPrint "Negociation failed" []) ;;
      _ <- SecureTcpConn.Close stc1 ;;
      ret tt
  | (stc1, None) =>
      emit (EvGo (SecureTcpConn.tcpConn stc1) (Some (SecureTcpConn.identity stc1)))
  end.

(** The [for _, addr = range st.Identity.Addresses] loop of [Listen]. *)
Fixpoint listen_loop (addrs : list string) (st : t) : Go (t * Outcome (option error)) :=
  match addrs with
  | [] =>
      ret (st, Returns (Some (errorString
             "No address worked for listening on this host")))
  | addr :: rest =>
      let st1 := mk (tcpHost st) (HostIdentity st) (IdToAddr st) addr in
      x <- TcpHost.listen (tcpHost st1) addr (receiver st1) ;;
      let '(h, out) := x in
      let st2 := mk h (HostIdentity st1) (IdToAddr st1) (workingAddress st1) in
      match out with
      | Blocks => ret (st2, Blocks)
      | Returns (Some err) =>
          if bool_decide (err = ErrClosed) || bool_decide (err = ErrEOF)
          then ret (st2, Returns None)
          else listen_loop rest st2
      | Returns None => listen_loop rest st2
      end
  end.

(** [func (st *SecureTcpHost) Listen(fn func(SecureConn)) error] *)
Definition Listen (st : t) : Go (t * Outcome (option error)) :=
  listen_loop (Identity.Addresses (HostIdentity st)) st.
End WithEnv.

(** [st.Close()] is the promoted [TcpHost.Close]. *)
Definition Close (st : t) : Go (t * option error) :=
  x <- TcpHost.Close (tcpHost st) ;;
  let '(h, err) := x in
  ret (mk h (HostIdentity st) (IdToAddr st) (workingAddress st), err).
End SecureTcpHost.

(** ** The simulation driver: the root part of [main] (cothority.go lines 101-163) *)
Module Simul.
(** Modelled from the spec: package [sda] (trees, rosters, the overlay and
    the simulation configuration) is not under src/.  The spec has a Roster
    as the "ordered set of Identities, unique by id" and a Tree as a "rooted
    hierarchy over a Roster" that "may map multiple tree-node slots to the
    same identity".  A tree is kept as the identities of its node slots,
    root first, with the roster it was built over. *)
Definition Roster : Type := list UUID.

Record Tree : Type := mkTree {
  Nodes : list UUID;
  TreeRoster : Roster
}.

(** Modelled from the spec: [Tree.Size()], the "expected tree size". *)
Definition Size (t : Tree) : Z := len (Nodes t).

(** The tree "maps multiple tree-node slots to the same identity". *)
Definition aliases (t : Tree) : Prop := ~ NoDup (Nodes t).

(** What [main] calls on a tree and a roster; both are code of package
    [sda]. *)
Class Sda : Type := {
  UsesList : Tree -> bool;
  GenerateBinaryTree : Roster -> Tree
}.

(** Modelled from the spec: the "uses-list" view "verifies exactly one
    tree-node per distinct Roster identity". *)
Definition UsesList_spec (t : Tree) : bool :=
  forallb (fun id => (count_occ N.eq_dec (Nodes t) id =? 1)%nat) (TreeRoster t).

(** Modelled from the spec: the shutdown tree is "rebuilt from the Roster",
    "one node per distinct identity". *)
Definition GenerateBinaryTree_spec (r : Roster) : Tree := mkTree r r.

(** [rootSC]: the fields and getters [main] reads. *)
Record SimulationConfig : Type := mkSC {
  SCTree : Tree;
  SCRoster : Roster;
  GetSingleHost : bool
}.

(** What one pass of the counting loop meets: [CreateProtocolSDA] fails, or
    the instance delivers a count on [proto.Count], or nothing ever arrives
    on that channel. *)
Inductive Round : Type :=
  | CreateFails (err : error)
  | Count (count : Z)
  | NoCount.

(** What the surroundings answer during the root part of [main]. *)
Record Answers : Type := mkAnswers {
  count_round : nat -> Round;
  (** [rootSim.Run(rootSC)] *)
  sim_run : option error;
  (** [CreateProtocolSDA("CloseAll", tree)]: whether [pi] is non-nil, and [err] *)
  closeall_create : Tree -> bool * option error
}.

Inductive Ev : Type :=
  | CreateProtocolSDA (name : string) (tree : Tree)
  | SetTimeout (timeout : Z)
  | Start (name : string)
  | RegisterTree (tree : Tree)
  | Run
  | Record_ (measure : string)
  | Lvl1 (msg : string) (args : list Z)
  | Lvl2 (msg : string)
  | LogError (msg : string)
  | LogFatal (err : error).

(** The text of the [log.Error] of lines 145-146. *)
Definition tree_not_using_list : string :=
  ("The tree doesn't use all ServerIdentities from the list!" ++ nl
   ++ "This means that the CloseAll will fail and the experiment never ends!")%string.

(** How the counting loop ends. *)
Inductive LoopEnd : Type :=
  | Found (timeout : Z)
  | LoopFatal (err : error)
  | LoopBlocks
  | OutOfFuel.

(** How the root part of [main] ends. *)
Inductive Exit : Type :=
  | Completed
  | Fatal (err : error)
  | Panics (v : string)
  | Blocked
  | NoFuel.

(** The [for wait] loop (lines 112-132), entered with [wait = true]: pass
    number [k], the current [timeout]; at most [fuel] passes are run. *)
Fixpoint count_loop (fuel : nat) (sc : SimulationConfig) (env : Answers)
    (k : nat) (timeout : Z) : list Ev * LoopEnd :=
  match fuel with
  | O => ([], OutOfFuel)
  | S fuel' =>
      match count_round env k with
      | CreateFails err =>
          ([CreateProtocolSDA "Count" (SCTree sc); LogFatal err], LoopFatal err)
      | NoCount =>
          ([CreateProtocolSDA "Count" (SCTree sc); SetTimeout timeout; Start "Count";
            Lvl1 "Started counting children with timeout of" [timeout]],
           LoopBlocks)
      | Count count =>
          let started :=
            [CreateProtocolSDA "Count" (SCTree sc); SetTimeout timeout; Start "Count";
             Lvl1 "Started counting children with timeout of" [timeout]] in
          if count =? Size (SCTree sc) then
            (started ++ [Lvl1 "Found all children" [count]],
             Found (GoInt.mul timeout 2))
          else
            let '(tr, e) := count_loop fuel' sc env (S k) (GoInt.mul timeout 2) in
            (started ++ Lvl1 "Found only children, counting again" [count] :: tr, e)
      end
  end.

Section WithSda.
Context `{Sda}.

(** The tree the CloseAll protocol is created on (lines 148-157). *)
Definition closeTree (sc : SimulationConfig) : Tree :=
  if GetSingleHost sc then GenerateBinaryTree (SCRoster sc) else SCTree sc.

(** Lines 142-162. *)
Definition close_all (sc : SimulationConfig) (env : Answers) : list Ev * Exit :=
  let e1 :=
    if negb (UsesList (SCTree sc))
    then [LogError tree_not_using_list]
    else [] in
  let e2 :=
    if GetSingleHost sc
    then [Lvl2 "Making new root-tree for SingleHost config";
          RegisterTree (closeTree sc)]
    else [] in
  let '(pi, err) := closeall_create env (closeTree sc) in
  let e3 := [CreateProtocolSDA "CloseAll" (closeTree sc)] in
  if pi then
    match err with
    | Some e => (e1 ++ e2 ++ e3 ++ [Start "CloseAll"; LogFatal e], Fatal e)
    | None => (e1 ++ e2 ++ e3 ++ [Start "CloseAll"], Completed)
    end
  else (e1 ++ e2 ++ e3, Panics nil_dereference).

(** Lines 101-163, the branch [rootSim != nil]. *)
Definition root_part (fuel : nat) (sc : SimulationConfig) (env : Answers)
  : list Ev * Exit :=
  let '(t1, e) := count_loop fuel sc env 0 1000 in
  match e with
  | LoopFatal err => (t1, Fatal err)
  | LoopBlocks => (t1, Blocked)
  | OutOfFuel => (t1, NoFuel)
  | Found _ =>
      let t2 := t1 ++ [Record_ "ChildrenWait"; Lvl1 "Starting new node" []; Run] in
      match sim_run env with
      | Some err => (t2 ++ [LogFatal err], Fatal err)
      | None =>
          let '(t3, x) := close_all sc env in
          (t2 ++ Record_ "bandwidth_root" :: t3, x)
      end
  end.
End WithSda.

(** The timeouts handed to [SetTimeout], in order. *)
Definition timeouts (tr : list Ev) : list Z :=
  omap (fun e => match e with SetTimeout t => Some t | _ => None end) tr.

(** The trees the named protocol was created on, in order. *)
Definition created_on (name : string) (tr : list Ev) : list Tree :=
  omap (fun e => match e with
                 | CreateProtocolSDA n t => if String.eqb n name then Some t else None
                 | _ => None
                 end) tr.

(** The timeout of pass [k]: 1000 multiplied [k] times by 2 in [int]. *)
Fixpoint timeout_of_round (k : nat) : Z :=
  match k with
  | O => 1000
  | S k' => GoInt.mul (timeout_of_round k') 2
  end.
End Simul.

(** * Auxiliary definitions: expected results, sample codec and worlds *)

(** The [n] passes from pass [k] on each deliver a count that is not the
    size of the tree. *)
Definition mismatches (sc : Simul.SimulationConfig) (env : Simul.Answers)
    (k n : nat) : Prop :=
  forall j, (j < n)%nat ->
    exists c, Simul.count_round env (k + j) = Simul.Count c
              /\ c <> Simul.Size (Simul.SCTree sc).

(** The calls on protocol instances in a trace, in order: the instances
    created, the timeouts set and the instances started. *)
Definition protocol_calls (tr : list Simul.Ev) : list Simul.Ev :=
  List.filter (fun e => match e with
                        | Simul.CreateProtocolSDA _ _ | Simul.SetTimeout _
                        | Simul.Start _ => true
                        | _ => false
                        end) tr.

(** What pass [j] of the counting loop is expected to do with its instance:
    a new Count instance on the working tree, given the timeout of the pass,
    then started. *)
Definition count_pass (sc : Simul.SimulationConfig) (j : nat) : list Simul.Ev :=
  [Simul.CreateProtocolSDA "Count" (Simul.SCTree sc);
   Simul.SetTimeout (Simul.timeout_of_round j);
   Simul.Start "Count"].

(** The [n] passes from pass [k] on. *)
Definition count_passes (sc : Simul.SimulationConfig) (k n : nat) : list Simul.Ev :=
  flat_map (count_pass sc) (seq k n).

(** The four errors of the identity negotiation. *)
Definition negotiation_error `{Env} (err : error) : Prop :=
  (exists e, err = errorString
     ("Error while sending indentity during negotiation:" ++ Error e)%string)
  \/ (exists e, err = errorString
     ("Error while receiving identity during negotiation " ++ Error e)%string)
  \/ (exists u, err = errorString
     ("Received wrong type during negotiation " ++ uuid_String u)%string)
  \/ err = errorString "Identity received during negotiation is wrong. WARNING".

(** What the [j]-th of [k] calls of [Next] is expected to give when the cursor
    starts at position [i]. *)
Definition addresses_from (addrs : list string) (i k : nat) : list string :=
  map (fun j => nth (i + j) addrs "") (seq 0 k).

(** Pass [n] of a run whose first [n] counts are wrong and whose next count is
    the tree size. *)
Definition late_answers (sc : Simul.SimulationConfig) (n : nat) : Simul.Answers :=
  Simul.mkAnswers
    (fun j => if (j <? n)%nat then Simul.Count (Simul.Size (Simul.SCTree sc) + 1)
              else Simul.Count (Simul.Size (Simul.SCTree sc)))
    None (fun _ => (true, None)).

(** ** A small codec and small worlds for the examples

    One byte of type tag, then the payload.  Tag 1 is an Identity whose
    payload is one byte, its id.  Tag 2 is a message of raw bytes.  Another
    tag is a type that was never registered.  An Identity message cut after
    its tag makes the decoder read past the end of the buffer. *)
Definition sample_Identity (u : UUID) : Identity.t := Identity.mk [] u [] 0.

Definition sample_encode (am : ApplicationMessage) : bytes :=
  match Msg am with
  | PMIdentity id | PMIdentityPtr id =>
      match Byte.of_N (Identity.Id id) with
      | Some b => [Byte.x01; b]
      | None => [Byte.x01]
      end
  | PMOther raw => Byte.x02 :: raw
  | PMnil => []
  end.

Definition sample_decode (am : ApplicationMessage) (buf : bytes) : UnmarshalOutcome :=
  match buf with
  | [] => Returned am (Some io_EOF)
  | tag :: payload =>
      let am1 := mkAM (From am) (AM_Identity am) (Byte.to_N tag) (Msg am) in
      if N.eqb (Byte.to_N tag) 1 then
        match payload with
        | b :: _ =>
            Returned (mkAM (From am) (AM_Identity am) 1%N
                           (PMIdentity (sample_Identity (Byte.to_N b)))) None
        | [] => Panicked am1 "runtime error: index out of range"
        end
      else if N.eqb (Byte.to_N tag) 2 then
        Returned (mkAM (From am) (AM_Identity am) 2%N (PMOther payload)) None
      else Returned am1 (Some (errorString "Type not registered."))
  end.

Definition sample_env : Env := {|
  IdentityType := 1%N;
  EmptyApplicationMessage := zero_ApplicationMessage;
  GlobalBind := fun addr => addr;
  uuid_String := fun u =>
    match u with 1%N => "Identity" | 2%N => "Raw" | _ => "unknown" end;
  uuid_NewV5_URL := fun url => N.of_nat (String.length url);
  Point_String := fun _ => "point";
  newApplicationMessage := fun obj =>
    match obj with
    | PMnil => inr (errorString "Type not registered.")
    | PMIdentity _ | PMIdentityPtr _ => inl (mkAM "" zero_Identity 1%N obj)
    | PMOther _ => inl (mkAM "" zero_Identity 2%N obj)
    end;
  MarshalBinary := fun am => inl (sample_encode am);
  UnmarshalBinary := sample_decode
|}.

(** A socket whose peer sends the given chunks and accepts every write. *)
Definition peer_sending (chunks : list bytes) (close_result : option error) : NetConn.t :=
  NetConn.mk (map (fun b => (b, None)) chunks) [] close_result [] None false.

(** A world with an empty heap where [net.Dial] answers by [d] and no address
    can be bound. *)
Definition world_dialing (d : nat -> string -> NetConn.t + error) : W :=
  mkWorld [] 0 d 0 (fun _ => inr (errorString "bind: address already in use")) [].

(** A world with the given heap and no network. *)
Definition world_of (h : list TcpConn.t) : W :=
  mkWorld h 0 (fun _ _ => inr (errorString "connection refused")) 0
          (fun _ => inr (errorString "bind: address already in use")) [].

Definition connection_refused : error :=
  netError "dial tcp: connection refused" false false.

(** What [n] refused dial attempts on [name] leave in the trace. *)
Fixpoint refused_trace (name : string) (n : nat) : list Event :=
  match n with
  | O => []
  | S n' => EvDial name false :: EvSleep waitRetry :: EvSleep waitRetry
            :: refused_trace name n'
  end.

(** The world after [n] refused dial attempts on [name]. *)
Definition after_refusals (w : W) (name : string) (n : nat) : W :=
  mkWorld (heap w) (clock w + 2 * Z.of_nat n * waitRetry) (dialer w)
          (dials w + n)%nat (binder w) (trace w ++ refused_trace name n).

(** [net.Dial] fails for [name] at every attempt. *)
Definition refuses (w : W) (name : string) : Prop :=
  forall k, exists e, dialer w k name = inr e.

(** The dial events of a trace. *)
Definition dial_attempts (tr : list Event) : list Event :=
  List.filter (fun e => match e with EvDial _ _ => true | _ => false end) tr.

(** The world once a socket [nc] to [name] was obtained at the first attempt
    and wrapped in a new [TcpConn]. *)
Definition connected (w : W) (name : string) (nc : NetConn.t) : W :=
  mkWorld (heap w ++ [TcpConn.mk name nc false]) (clock w) (dialer w) (S (dials w))
          (binder w) (trace w ++ [EvDial name true]).

(** The world after every address of [l] refused all its attempts. *)
Definition after_all_refusals (w : W) (l : list string) : W :=
  fold_left (fun w x => after_refusals w x maxRetry) l w.

Definition no_address_connected : error :=
  errorString "Could not connect to any address tied to this identity".

Definition close_failure : error := netError "close tcp: input/output error" false false.

(** An open tracked connection whose socket reports an error on close. *)
Definition failing_conn (name : string) : TcpConn.t :=
  TcpConn.mk name (peer_sending [] (Some close_failure)) false.

(** An open tracked connection that closes cleanly. *)
Definition healthy_conn (name : string) : TcpConn.t :=
  TcpConn.mk name (peer_sending [] None) false.

Definition open_listener : Listener.t := Listener.mk [] None false.

(** Every connection tracked by the host is closed in the world. *)
Definition all_peers_closed (h : TcpHost.t) (w : W) : Prop :=
  forall name c, In (name, c) (TcpHost.peers h) ->
    exists o, cell c w = Some o /\ TcpConn.closed o = true.

(** [Close] on a host that is not closed, tracks the two failing connections
    in the given range order and listens: it sets the closed flag and returns
    the error of the first connection at once, so that some tracked connection
    stays open, the quit channel is not closed and the listener is left as it
    was. *)
Definition stops_at_first_failure (peers : list (string * ptr)) : Prop :=
  let h := TcpHost.mk peers (Some open_listener) chan_open false in
  let w := world_of [failing_conn "10.0.0.1:2000"; failing_conn "10.0.0.2:2000"] in
  exists h' w',
    TcpHost.Close h w = (Ok (h', Some ErrUnknown), w')
    /\ TcpHost.closed h' = true
    /\ TcpHost.quit h' = chan_open
    /\ TcpHost.listener h' = Some open_listener
    /\ ~ all_peers_closed h' w'
    /\ (cell 1%nat w' = Some (failing_conn "10.0.0.1:2000")
        \/ cell 2%nat w' = Some (failing_conn "10.0.0.2:2000")).

Definition dialed : Identity.t := Identity.mk [] 7%N ["10.0.0.2:2000"] 0.

Definition sample_host : SecureTcpHost.t :=
  SecureTcpHost.mk TcpHost.NewTcpHost (sample_Identity 5%N) [] "".

(** [net.Dial] reaches the socket [nc] at 10.0.0.2:2000 and is refused
    elsewhere. *)
Definition answering (nc : NetConn.t) : nat -> string -> NetConn.t + error :=
  fun _ name => if String.eqb name "10.0.0.2:2000" then inl nc
                else inr connection_refused.

Definition broken_pipe : error := netError "write tcp: broken pipe" false false.

(** [Open] returned an error together with a connection that is not nil and
    was not closed. *)
Definition error_with_open_connection
    (r : result (option SecureTcpConn.t * option error) * W) : Prop :=
  exists sc err w' o,
    r = (Ok (Some sc, Some err), w')
    /\ cell (SecureTcpConn.tcpConn sc) w' = Some o
    /\ TcpConn.closed o = false
    /\ NetConn.os_closed (TcpConn.Conn o) = false.

(** The handler goroutines a trace has spawned. *)
Definition spawned (tr : list Event) : list Event :=
  List.filter (fun e => match e with EvGo _ _ => true | _ => false end) tr.

(** Package [sda] as the spec describes it. *)
Definition Sda_spec : Simul.Sda :=
  {| Simul.UsesList := Simul.UsesList_spec;
     Simul.GenerateBinaryTree := Simul.GenerateBinaryTree_spec |}.

Definition two_addresses : Identity.t :=
  Identity.mk [] 7%N ["10.0.0.1:2000"; "10.0.0.2:2000"] 0.

Definition three_nodes : Simul.SimulationConfig :=
  Simul.mkSC (Simul.mkTree [1; 2; 3]%N [1; 2; 3]%N) [1; 2; 3]%N false.

(** The peer at 10.0.0.2:2000 answers with the Identity of the given id. *)
Definition peer_identifying (u : Byte.byte) : W :=
  world_dialing (answering (peer_sending [[Byte.x01; u]] None)).

Definition listening_host : TcpHost.t :=
  TcpHost.mk [("10.0.0.1:2000", 1%nat); ("10.0.0.2:2000", 2%nat)]
             (Some open_listener) chan_open false.

Definition two_healthy : W :=
  world_of [healthy_conn "10.0.0.1:2000"; healthy_conn "10.0.0.2:2000"].

(** Three node slots over a roster of two identities: identity 1 holds two
    slots.  The configuration is not SingleHost. *)
Definition aliased_tree : Simul.Tree := Simul.mkTree [1; 1; 2]%N [1; 2]%N.

Definition aliased_config : Simul.SimulationConfig :=
  Simul.mkSC aliased_tree [1; 2]%N false.

Definition all_counted : Simul.Answers :=
  Simul.mkAnswers (fun _ => Simul.Count 3) None (fun _ => (true, None)).

(** * The rest of net.go: lookups in the connection map, the TOML form of an
    identity *)

(** [c, ok := m[k]] *)
Fixpoint map_get (m : list (string * ptr)) (k : string) : option ptr :=
  match m with
  | [] => None
  | (k', v) :: m' => if String.eqb k' k then Some v else map_get m' k
  end.

(** The pointers a connection map holds. *)
Definition map_values (m : list (string * ptr)) : list ptr := map snd m.

(** [cliutils.WritePub64] and [cliutils.ReadPub64], code of package [cliutils]
    that is not under src/: the text written for a point with the error
    returned, and the point read from a text with the error returned. *)
Class Cliutils : Type := {
  WritePub64 : Point -> string * option error;
  ReadPub64 : string -> Point * option error
}.

(** [IdentityToml] (net.go lines 515-518) *)
Record IdentityToml : Type := mkIdentityToml {
  TomlPublic : string;
  TomlAddresses : list string
}.

(** [func (id *Identity) Toml(suite) *IdentityToml] (lines 520-527); the error
    of [WritePub64] is dropped. *)
Definition Identity_Toml `{Cliutils} (id : Identity.t) : IdentityToml :=
  let buf := fst (WritePub64 (Identity.Public id)) in
  mkIdentityToml buf (Identity.Addresses id).

(** [func (id *IdentityToml) Identity(suite) *Identity] (lines 528-534); the
    error of [ReadPub64] is dropped, [Id] and [iter] keep their zero values. *)
Definition IdentityToml_Identity `{Cliutils} (t : IdentityToml) : Identity.t :=
  let pub := fst (ReadPub64 (TomlPublic t)) in
  Identity.mk pub 0%N (TomlAddresses t) 0.

(** The connection as [Receive] leaves it: the reads that are left. *)
Definition with_reads (o : TcpConn.t) (rest : list (bytes * option error)) : TcpConn.t :=
  TcpConn.mk (TcpConn.Endpoint o)
    (NetConn.mk rest (NetConn.writes (TcpConn.Conn o))
                (NetConn.close_result (TcpConn.Conn o)) (NetConn.sent (TcpConn.Conn o))
                (NetConn.deadline (TcpConn.Conn o)) (NetConn.os_closed (TcpConn.Conn o)))
    (TcpConn.closed o).

(** The six errors of the package. *)
Definition sentinels : list error :=
  [ErrClosed; ErrEOF; ErrCanceled; ErrTemp; ErrTimeout; ErrUnknown].

(** * Auxiliary definitions for the further properties: sample connections
    and listening worlds *)

(** A failed close of the OS socket, reported as temporary. *)
Definition temporary_close_failure : error :=
  netError "close tcp: resource temporarily unavailable" true false.

(** The socket [nc] with another script of reads. *)
Definition set_reads (nc : NetConn.t) (rest : list (bytes * option error)) : NetConn.t :=
  NetConn.mk rest (NetConn.writes nc) (NetConn.close_result nc) (NetConn.sent nc)
             (NetConn.deadline nc) (NetConn.os_closed nc).

(** Reads that deliver the chunks, each without an error. *)
Definition no_error (chunks : list bytes) : list (bytes * option error) :=
  map (fun b => (b, None)) chunks.

(** A raw message (tag 2) that fills the 4096-byte buffer exactly. *)
Definition full_raw : bytes := Byte.x02 :: repeat Byte.x00 4095.

(** A peer that sends a full buffer and then two short messages. *)
Definition glued_conn : TcpConn.t :=
  TcpConn.mk "10.0.0.2:2000"
    (peer_sending [full_raw; [Byte.x01; Byte.x07]; [Byte.x01; Byte.x09]] None) false.

(** [net.Dial] is refused three times, then accepted. *)
Definition accepted_at_fourth : nat -> string -> NetConn.t + error :=
  fun n _ => if (n <? 3)%nat then inr connection_refused else inl (peer_sending [] None).

(** Every cell of [w] is still a cell of [w1], with the same closed flag. *)
Definition keeps_flags (w w1 : W) : Prop :=
  forall p o, cell p w = Some o ->
    exists o1, cell p w1 = Some o1 /\ TcpConn.closed o1 = TcpConn.closed o.

(** The connections of an accept script, without the failed accepts. *)
Definition accepted (script : list (NetConn.t * string + error)) : list (NetConn.t * string) :=
  omap (fun a => match a with inl x => Some x | inr _ => None end) script.

(** The map after the accepted connections were tracked, one after the other,
    in the heap cells after cell [base]. *)
Fixpoint track_all (m : list (string * ptr)) (base : nat) (accs : list (NetConn.t * string))
  : list (string * ptr) :=
  match accs with
  | [] => m
  | (_, remote) :: rest => track_all (TcpHost.map_set m remote (S base)) (S base) rest
  end.

(** The heap cells made for the accepted connections. *)
Definition accepted_conns (accs : list (NetConn.t * string)) : list TcpConn.t :=
  map (fun a => TcpConn.mk (snd a) (fst a) false) accs.

(** The handler goroutines started for [n] connections put in the heap cells
    after cell [base]. *)
Definition handlers (base n : nat) : list Event :=
  map (fun i => EvGo (S (base + i)) None) (seq 0 n).

(** A world where every address binds to the listener [ln]. *)
Definition world_listening (ln : Listener.t) : W :=
  mkWorld [] 0 (fun _ _ => inr connection_refused) 0 (fun _ => inl ln) [].

(** A failed [Accept] of the listener. *)
Definition accept_failure : error := netError "accept tcp: too many open files" true false.

(** A listener that accepts a connection, fails once, and accepts another. *)
Definition three_accepts : Listener.t :=
  Listener.mk [inl (peer_sending [] None, "10.0.0.9:4000"); inr accept_failure;
               inl (peer_sending [] None, "10.0.0.8:4000")] None false.

(** A secure host that has been closed. *)
Definition closed_secure_host : SecureTcpHost.t :=
  SecureTcpHost.mk (TcpHost.mk [] None chan_closed true)
                   (Identity.mk [] 5%N ["10.0.0.1:2000"] 0) [] "".

(** A listener whose only [Accept] fails. *)
Definition one_failed_accept : Listener.t := Listener.mk [inr accept_failure] None false.

(** A world with one accepted connection whose peer sends [reply]. *)
Definition accepted_world (reply : list bytes) : W :=
  world_of [TcpConn.mk "10.0.0.9:4000" (peer_sending reply None) false].

(** A codec for the examples: the text of a point is its bytes. *)
Definition sample_cliutils : Cliutils :=
  {| WritePub64 := fun p => (string_of_list_byte p, None);
     ReadPub64 := fun s => (list_byte_of_string s, None) |}.

(** The event of [rootSim.Run]. *)
Definition is_Run (e : Simul.Ev) : bool :=
  match e with Simul.Run => true | _ => false end.


(** Surroundings where two rounds count one node and the third delivers
    nothing. *)
Definition silent_third_round : Simul.Answers :=
  Simul.mkAnswers (fun j => if (j <? 2)%nat then Simul.Count 1 else Simul.NoCount)
                  None (fun _ => (true, None)).

(** Surroundings where every round counts no node. *)
Definition never_counted : Simul.Answers :=
  Simul.mkAnswers (fun _ => Simul.Count 0) None (fun _ => (true, None)).

(** * The rest of cothority.go: the loop over the hosts and the end of [main] *)

(** One entry of [scs]: the configuration, the id of its host
    ([sc.Conode.ServerIdentity.ID]), the errors of [sda.NewSimulation] and of
    [sim.Node(sc)], what the surroundings answer when this entry becomes
    [rootSC], and whether the goroutine started for the host ever ends, that
    is whether [h.Start()] returns (the host is closed) so that [wg.Done] is
    called.  The root of the tree is the first of its node slots; a tree
    without a node has a nil [Root]. *)
Record HostConfig : Type := mkHC {
  HCConfig : Simul.SimulationConfig;
  HCHost : UUID;
  HCNewSimulation : option error;
  HCNode : option error;
  HCAnswers : Simul.Answers;
  HCCloses : bool
}.

(** What [main] does, as seen from outside: connecting the monitor, starting
    hosts, making simulations, the events of the root part, [log.Fatal],
    [wg.Wait] and [monitor.EndAndCleanup]. *)
Inductive MainEv : Type :=
  | EvConnectSink (addr : string)
  | EvLogError (msg : string)
  | EvStartHost (host : UUID)
  | EvNewSimulation (i : nat)
  | EvNode (i : nat)
  | EvRoot (e : Simul.Ev)
  | EvFatal (err : error)
  | EvWait
  | EvEndAndCleanup.

(** Lines 56-60: the monitor is connected when an address was given; an error
    of [monitor.ConnectSink] is logged and [main] goes on. *)
Definition connect_sink (monitorAddress : string) (connect : option error) : list MainEv :=
  if String.eqb monitorAddress "" then []
  else EvConnectSink monitorAddress ::
       match connect with
       | Some _ => [EvLogError "Couldn't connect monitor to sink:"]
       | None => []
       end.

(** The [for i, sc := range scs] loop (lines 67-100) from index [i] on, with
    the current [rootSC]: the root it ends with, or how it aborts.  Starting a
    host is [go func ... h.Start()], recorded as an event. *)
Fixpoint start_hosts (i : nat) (scs : list HostConfig) (root : option HostConfig)
  : list MainEv * (option HostConfig + Simul.Exit) :=
  match scs with
  | [] => ([], inl root)
  | sc :: rest =>
      match HCNewSimulation sc with
      | Some err =>
          ([EvStartHost (HCHost sc); EvNewSimulation i; EvFatal err], inr (Simul.Fatal err))
      | None =>
          match HCNode sc with
          | Some err =>
              ([EvStartHost (HCHost sc); EvNewSimulation i; EvNode i; EvFatal err],
               inr (Simul.Fatal err))
          | None =>
              match Simul.Nodes (Simul.SCTree (HCConfig sc)) with
              | [] =>
                  ([EvStartHost (HCHost sc); EvNewSimulation i; EvNode i],
                   inr (Simul.Panics nil_dereference))
              | r :: _ =>
                  let root1 := if N.eqb (HCHost sc) r then Some sc else root in
                  let '(tr, x) := start_hosts (S i) rest root1 in
                  (EvStartHost (HCHost sc) :: EvNewSimulation i :: EvNode i :: tr, x)
              end
          end
      end
  end.

(** [main] after [flag.Parse]: [load] is what [sda.LoadSimulationConfig]
    returns, [connect] what [monitor.ConnectSink] returns.  After the root
    part, or without a root, [main] indexes [scs[0]] for its log line and
    waits in [wg.Wait()] until the goroutine of every host has ended: when one
    of them never ends, [main] is blocked there and
    [monitor.EndAndCleanup] is not reached. *)
Definition main `{Simul.Sda} (fuel : nat) (monitorAddress : string)
    (connect : option error) (load : list HostConfig * option error)
  : list MainEv * Simul.Exit :=
  let '(scs, err) := load in
  match err with
  | Some _ => ([], Simul.Completed)
  | None =>
      let e0 := connect_sink monitorAddress connect in
      match start_hosts 0 scs None with
      | (tr, inr x) => (e0 ++ tr, x)
      | (tr, inl root) =>
          let '(tr2, x) :=
            match root with
            | None => ([], Simul.Completed)
            | Some r => Simul.root_part fuel (HCConfig r) (HCAnswers r)
            end in
          match x with
          | Simul.Completed =>
              match scs with
              | [] => (e0 ++ tr ++ map EvRoot tr2, Simul.Panics "index out of range")
              | _ :: _ =>
                  if forallb HCCloses scs
                  then (e0 ++ tr ++ map EvRoot tr2 ++ [EvWait; EvEndAndCleanup],
                        Simul.Completed)
                  else (e0 ++ tr ++ map EvRoot tr2 ++ [EvWait], Simul.Blocked)
              end
          | _ => (e0 ++ tr ++ map EvRoot tr2, x)
          end
      end
  end.

(** The host of the entry is the root of its tree. *)
Definition is_root (sc : HostConfig) : bool :=
  match Simul.Nodes (Simul.SCTree (HCConfig sc)) with
  | r :: _ => N.eqb (HCHost sc) r
  | [] => false
  end.

(** The simulation of the entry can be made: [NewSimulation] and [Node]
    succeed and its tree has a root. *)
Definition startable (sc : HostConfig) : Prop :=
  HCNewSimulation sc = None /\ HCNode sc = None
  /\ Simul.Nodes (Simul.SCTree (HCConfig sc)) <> [].

(** The hosts started in a run, in order. *)
Definition started_hosts (tr : list MainEv) : list UUID :=
  omap (fun e => match e with EvStartHost h => Some h | _ => None end) tr.

(** The events of the root part in a run. *)
Definition root_events (tr : list MainEv) : list Simul.Ev :=
  omap (fun e => match e with EvRoot x => Some x | _ => None end) tr.

(** The root the loop ends with: the last entry that is a root, or the one it
    started with. *)
Definition pick_root (scs : list HostConfig) (root : option HostConfig) : option HostConfig :=
  fold_left (fun r sc => if is_root sc then Some sc else r) scs root.

(** What the loop over [scs] does from index [i] on when every simulation can
    be made: for each entry in turn the host is started, then the simulation
    is made and set up. *)
Fixpoint start_events (i : nat) (scs : list HostConfig) : list MainEv :=
  match scs with
  | [] => []
  | sc :: rest =>
      EvStartHost (HCHost sc) :: EvNewSimulation i :: EvNode i :: start_events (S i) rest
  end.

(** A started host that is the root of a tree of three nodes, answered by a
    full count at the first round; the host is closed in the end. *)
Definition root_entry (host : UUID) : HostConfig :=
  mkHC (Simul.mkSC (Simul.mkTree [host; 8; 9]%N [host; 8; 9]%N) [host; 8; 9]%N false)
       host None None all_counted true.

(** A started host that is not the root of its tree; the host is closed in
    the end. *)
Definition leaf_entry (host : UUID) : HostConfig :=
  mkHC three_nodes host None None all_counted true.

(** A started host that is not the root of its tree and is never closed. *)
Definition hanging_entry (host : UUID) : HostConfig :=
  mkHC three_nodes host None None all_counted false.

(** An entry for which [sim.Node] returns an error. *)
Definition failing_entry (host : UUID) : HostConfig :=
  mkHC three_nodes host None (Some (errorString "node setup failed")) all_counted true.

(** * Properties *)

(** ** Go's [int] *)

Lemma wrap_in_range (z : Z) : GoInt.in_range z -> GoInt.wrap z = z.
Proof.
  unfold GoInt.in_range, GoInt.min_int, GoInt.max_int, GoInt.wrap. intros Hz.
  rewrite Z.mod_small; lia.
Qed.

(** ** Identity: the address cursor *)

Lemma addresses_from_S addrs i k :
  addresses_from addrs i (S k) = nth i addrs "" :: addresses_from addrs (S i) k.
Proof.
  unfold addresses_from. cbn [seq map]. rewrite Nat.add_0_r. f_equal.
  rewrite <- seq_shift, map_map. apply map_ext. intros j.
  f_equal. lia.
Qed.

Lemma addresses_from_beyond addrs i k :
  (length addrs <= i)%nat -> addresses_from addrs i k = repeat "" k.
Proof.
  revert i. induction k as [|k IH]; intros i Hi; [reflexivity|].
  rewrite addresses_from_S. cbn [repeat]. f_equal.
  - apply nth_overflow. exact Hi.
  - apply IH. lia.
Qed.

Lemma index_in_bounds {A : Type} (l : list A) (i : Z) (d : A) :
  0 <= i < len l -> index l i = Ok (nth (Z.to_nat i) l d).
Proof.
  unfold index, len. intros Hi.
  destruct (i <? 0) eqn:E1; [lia|].
  destruct (Z.of_nat (length l) <=? i) eqn:E2; [lia|]. cbn [orb].
  destruct (l !! Z.to_nat i) as [x|] eqn:E3.
  - f_equal. symmetry. apply nth_lookup_Some with (d := d) in E3. exact E3.
  - apply lookup_ge_None in E3. lia.
Qed.

Lemma First_total (id : Identity.t) :
  Identity.First id = Ok (nth 0 (Identity.Addresses id) "").
Proof.
  unfold Identity.First. rewrite Z.gtb_ltb.
  destruct (0 <? len (Identity.Addresses id)) eqn:E.
  - apply (index_in_bounds _ 0 ""). lia.
  - destruct id as [pub u addrs it]. cbn in *.
    destruct addrs; [reflexivity|].
    apply Z.ltb_ge in E. unfold len in E. cbn [length] in E. lia.
Qed.

Lemma Next_step (id : Identity.t) :
  Identity.cursor_ok id ->
  exists id',
    Identity.Next id
    = Ok (nth (Z.to_nat (Identity.iter id)) (Identity.Addresses id) "", id')
    /\ Identity.cursor_ok id'
    /\ Identity.Addresses id' = Identity.Addresses id
    /\ Identity.iter id' = Z.min (Identity.iter id + 1) (len (Identity.Addresses id)).
Proof.
  intros [[Hlo Hhi] Hmax]. unfold Identity.Next, GoInt.add.
  rewrite wrap_in_range
    by (unfold GoInt.in_range, GoInt.min_int; unfold GoInt.max_int in *; lia).
  destruct (len (Identity.Addresses id) <? Identity.iter id + 1) eqn:E.
  - exists id. repeat split; try lia.
    f_equal. f_equal. symmetry. apply nth_overflow. unfold len in *. lia.
  - rewrite (index_in_bounds _ _ "") by lia.
    eexists. split; [reflexivity|].
    unfold Identity.cursor_ok. cbn [Identity.iter Identity.Addresses].
    repeat split; lia.
Qed.

Lemma Next_calls_spec (k : nat) : forall id : Identity.t,
  Identity.cursor_ok id ->
  exists id',
    Identity.Next_calls k id
    = Ok (addresses_from (Identity.Addresses id) (Z.to_nat (Identity.iter id)) k, id')
    /\ Identity.cursor_ok id'
    /\ Identity.Addresses id' = Identity.Addresses id.
Proof.
  induction k as [|k IH]; intros id Hok.
  - exists id. cbn. auto.
  - destruct (Next_step id Hok) as (id1 & HN & Hok1 & Ha1 & Hi1).
    destruct (IH id1 Hok1) as (id2 & HC & Hok2 & Ha2).
    exists id2. cbn [Identity.Next_calls]. rewrite HN, HC, Ha1.
    split; [|split; [exact Hok2 | congruence]].
    f_equal. f_equal. rewrite addresses_from_S. f_equal.
    destruct Hok as [[Hlo Hhi] _].
    destruct (Z.eq_dec (Identity.iter id) (len (Identity.Addresses id))) as [Heq|Hne].
    + rewrite !addresses_from_beyond; [reflexivity | unfold len in *; lia ..].
    + f_equal. lia.
Qed.

(** A new identity has its cursor at the start of its list, and [Next] keeps
    the cursor a position of the list ([Next_step]). *)
Lemma NewIdentity_cursor_ok `{Env} (public : Point) (addresses : list string) :
  len addresses < GoInt.max_int ->
  Identity.cursor_ok (NewIdentity public addresses).
Proof.
  intros Hlen. unfold Identity.cursor_ok, NewIdentity. cbn [Identity.iter Identity.Addresses].
  unfold len in *. lia.
Qed.

(** C10.  For every identity whose cursor is a position of its address list,
    [First] and [Next] never index outside the list: [First] gives the first
    address, or the empty string for an empty list; [k] successive calls of
    [Next] give the addresses in list order from the cursor on and the empty
    string for every call past the end of the list, and leave the cursor a
    position of the list. *)
Theorem Identity_iterator_total_in_bounds (id : Identity.t) (k : nat) :
  Identity.cursor_ok id ->
  Identity.First id = Ok (nth 0 (Identity.Addresses id) "")
  /\ exists id',
       Identity.Next_calls k id
       = Ok (addresses_from (Identity.Addresses id) (Z.to_nat (Identity.iter id)) k, id')
       /\ Identity.cursor_ok id'
       /\ Identity.Addresses id' = Identity.Addresses id.
Proof.
  intros Hok. split; [apply First_total | apply Next_calls_spec; exact Hok].
Qed.

(** ** The counting loop of the driver *)

Section CountLoop.
Import Simul.
Variables (sc : SimulationConfig) (env : Answers).

Lemma mismatches_S k n :
  mismatches sc env k (S n) ->
  (exists c, count_round env k = Count c /\ c <> Size (SCTree sc))
  /\ mismatches sc env (S k) n.
Proof.
  intros Hm. split.
  - destruct (Hm 0%nat) as (c & Hc & Hne); [lia|].
    rewrite Nat.add_0_r in Hc. eauto.
  - intros j Hj. destruct (Hm (S j)) as (c & Hc & Hne); [lia|].
    exists c. split; [|exact Hne]. rewrite <- Hc. f_equal. lia.
Qed.

(** While the counts differ from the tree size the loop goes on: after
    [fuel] such passes it has started [fuel] instances and has not left. *)
Lemma count_loop_goes_on (fuel : nat) : forall k,
  mismatches sc env k fuel ->
  snd (count_loop fuel sc env k (timeout_of_round k)) = OutOfFuel
  /\ timeouts (fst (count_loop fuel sc env k (timeout_of_round k)))
     = map timeout_of_round (seq k fuel).
Proof.
  induction fuel as [|fuel IH]; intros k Hm; [split; reflexivity|].
  apply mismatches_S in Hm. destruct Hm as [(c & Hc & Hne) Hm].
  cbn [count_loop]. rewrite Hc.
  apply Z.eqb_neq in Hne. rewrite Hne.
  specialize (IH (S k) Hm). cbn [timeout_of_round] in IH.
  destruct (count_loop fuel sc env (S k) (GoInt.mul (timeout_of_round k) 2))
    as [tr e].
  cbn [fst snd] in *. destruct IH as [IH1 IH2]. split; [exact IH1|].
  cbn [seq map]. cbn. f_equal. exact IH2.
Qed.



End CountLoop.





(** ** Dialing *)

Lemma after_refusals_S (w : W) (name : string) (n : nat) :
  after_refusals
    (mkWorld (heap w) (clock w + waitRetry + waitRetry) (dialer w) (S (dials w))
             (binder w)
             (((trace w ++ [EvDial name false]) ++ [EvSleep waitRetry])
              ++ [EvSleep waitRetry])) name n
  = after_refusals w name (S n).
Proof.
  unfold after_refusals. cbn [heap clock dialer dials binder trace refused_trace].
  f_equal.
  - unfold waitRetry, Second. lia.
  - lia.
  - rewrite <- !app_assoc. reflexivity.
Qed.

(** Refused at every attempt, the dial loop makes all its attempts, sleeps
    twice after each, and ends without a connection. *)
Lemma dial_loop_refused (n : nat) : forall (name : string) conn err (w : W),
  refuses w name ->
  exists e,
    TcpHost.dial_loop (S n) name conn err w
    = (Ok (None, Some e), after_refusals w name (S n)).
Proof.
  induction n as [|n IH]; intros name conn err w Href.
  - destruct (Href (dials w)) as [e He]. exists e.
    cbn [TcpHost.dial_loop]. unfold bind, net_Dial, time_Sleep, ret.
    cbn [heap clock dialer dials binder trace]. rewrite He.
    rewrite <- (after_refusals_S w name 0). unfold after_refusals.
    cbn [heap clock dialer dials binder trace refused_trace].
    do 2 f_equal; [lia | rewrite Nat.add_0_r | rewrite app_nil_r]; reflexivity.
  - destruct (Href (dials w)) as [e He].
    remember (S n) as m eqn:Hm.
    cbn [TcpHost.dial_loop]. unfold bind at 1. unfold net_Dial at 1.
    rewrite He. unfold bind at 1. unfold time_Sleep at 1.
    unfold bind at 1. unfold time_Sleep at 1.
    cbn [heap clock dialer dials binder trace].
    subst m.
    match goal with
    | |- context [TcpHost.dial_loop (S n) name None (Some e) ?w3] =>
        destruct (IH name None (Some e) w3) as [e' He']
    end.
    { intros k. apply (Href k). }
    exists e'. rewrite He'. f_equal. apply after_refusals_S.
Qed.

(** What [openTcpConn] does for an address that refuses every attempt. *)
Lemma openTcpConn_refused (name : string) (w : W) :
  refuses w name ->
  TcpHost.openTcpConn name w
  = (Ok (nil, Some (errorString ("Could not connect to " ++ name ++ ".")%string)),
     after_refusals w name maxRetry).
Proof.
  intros Href. unfold TcpHost.openTcpConn, maxRetry.
  destruct (dial_loop_refused 9 name None None w Href) as [e He].
  unfold bind at 1. rewrite He. reflexivity.
Qed.

(** An attempt that succeeds ends the loop at once: nothing is slept and no
    further attempt is made. *)
Lemma dial_loop_accepted (n : nat) (name : string) conn err (w : W) (nc : NetConn.t) :
  dialer w (dials w) name = inl nc ->
  TcpHost.dial_loop (S n) name conn err w
  = (Ok (Some nc, None),
     mkWorld (heap w) (clock w) (dialer w) (S (dials w)) (binder w)
             (trace w ++ [EvDial name true])).
Proof.
  intros Hd. cbn [TcpHost.dial_loop]. unfold bind, net_Dial, ret.
  rewrite Hd. reflexivity.
Qed.

(** Refused [k] times and then accepted, with [k] below the number of
    attempts left, the loop returns the connection of attempt [k + 1] and
    makes no further attempt. *)
Lemma dial_loop_accepted_after (k : nat) : forall n (name : string) conn err (w : W) nc,
  (forall j, (j < k)%nat -> exists e, dialer w (dials w + j) name = inr e) ->
  dialer w (dials w + k) name = inl nc ->
  (k < n)%nat ->
  TcpHost.dial_loop n name conn err w
  = (Ok (Some nc, None),
     mkWorld (heap w) (clock w + 2 * Z.of_nat k * waitRetry) (dialer w)
             (S (dials w + k)) (binder w)
             (trace w ++ refused_trace name k ++ [EvDial name true])).
Proof.
  induction k as [|k IH]; intros n name conn err w nc Hfail Hacc Hlt.
  - destruct n as [|n]; [lia|]. rewrite Nat.add_0_r in *.
    rewrite (dial_loop_accepted n name conn err w nc Hacc).
    do 2 f_equal. lia.
  - destruct n as [|n]; [lia|].
    destruct (Hfail 0%nat) as [e He]; [lia|]. rewrite Nat.add_0_r in He.
    cbn [TcpHost.dial_loop]. unfold bind at 1. unfold net_Dial at 1.
    rewrite He. unfold bind at 1. unfold time_Sleep at 1.
    unfold bind at 1. unfold time_Sleep at 1.
    cbn [heap clock dialer dials binder trace].
    rewrite (IH n name None (Some e) _ nc).
    + cbn [heap clock dialer dials binder trace refused_trace]. f_equal. f_equal.
      * unfold waitRetry, Second. lia.
      * lia.
      * rewrite <- !app_assoc. reflexivity.
    + cbn [dialer dials]. intros j Hj. destruct (Hfail (S j)) as [e' He']; [lia|].
      exists e'. rewrite <- He'. f_equal. lia.
    + cbn [dialer dials]. rewrite <- Hacc. f_equal. lia.
    + lia.
Qed.

Lemma openTcpConn_accepted (name : string) (w : W) (nc : NetConn.t) :
  dialer w (dials w) name = inl nc ->
  TcpHost.openTcpConn name w = (Ok (S (length (heap w)), None), connected w name nc).
Proof.
  intros Hd. unfold TcpHost.openTcpConn, maxRetry.
  unfold bind at 1. rewrite (dial_loop_accepted 9 name None None w nc Hd).
  reflexivity.
Qed.

(** C4.  For an address that refuses every attempt, [openTcpConn] makes
    exactly 10 dial attempts and returns the dial failure, but after every
    refused attempt, the last one included, it sleeps [waitRetry] twice: two
    seconds pass between consecutive attempts, twenty in all. *)
Theorem openTcpConn_refused_sleeps_twice_per_attempt (name : string) (e : error) :
  exists w' : W,
    TcpHost.openTcpConn name (world_dialing (fun _ _ => inr e))
    = (Ok (nil, Some (errorString ("Could not connect to " ++ name ++ ".")%string)), w')
    /\ trace w' = refused_trace name 10
    /\ length (dial_attempts (trace w')) = 10%nat
    /\ refused_trace name 2
       = [EvDial name false; EvSleep (1 * Second); EvSleep (1 * Second);
          EvDial name false; EvSleep (1 * Second); EvSleep (1 * Second)]
    /\ clock w' = 20 * Second.
Proof.
  eexists. split.
  - apply openTcpConn_refused. intros k. exists e. reflexivity.
  - repeat split.
Qed.

(** ** Opening a secure connection: address failover *)

Lemma after_refusals_dialer w x n : dialer (after_refusals w x n) = dialer w.
Proof. reflexivity. Qed.

Lemma after_all_refusals_dialer l : forall w, dialer (after_all_refusals w l) = dialer w.
Proof.
  induction l as [|x l IH]; intros w; [reflexivity|].
  cbn [after_all_refusals fold_left]. fold (after_all_refusals (after_refusals w x maxRetry) l).
  rewrite IH. reflexivity.
Qed.

Lemma after_all_refusals_heap l : forall w, heap (after_all_refusals w l) = heap w.
Proof.
  induction l as [|x l IH]; intros w; [reflexivity|].
  cbn [after_all_refusals fold_left]. fold (after_all_refusals (after_refusals w x maxRetry) l).
  rewrite IH. reflexivity.
Qed.

Lemma refuses_after_refusals w x n y : refuses w y -> refuses (after_refusals w x n) y.
Proof. intros H k. apply (H k). Qed.

(** When every address refuses, the loop of [Open] ends without a
    connection. *)
Lemma open_loop_all_refused (l : list string) : forall w : W,
  (forall x, In x l -> refuses w x) ->
  SecureTcpHost.open_loop l w = (Ok None, after_all_refusals w l).
Proof.
  induction l as [|x l IH]; intros w Href; [reflexivity|].
  cbn [SecureTcpHost.open_loop]. unfold bind at 1.
  rewrite openTcpConn_refused by (apply Href; left; reflexivity).
  rewrite IH; [reflexivity|].
  intros y Hy. apply refuses_after_refusals. apply Href. right. exact Hy.
Qed.

(** When the addresses before [y] refuse and [y] accepts, the loop connects
    to [y] and does not look at the addresses after it. *)
Lemma open_loop_fails_over (l1 : list string) : forall (w : W) y l2 nc,
  (forall x, In x l1 -> refuses w x) ->
  (forall k, dialer w k y = inl nc) ->
  SecureTcpHost.open_loop (l1 ++ y :: l2) w
  = (Ok (Some (S (length (heap w)))), connected (after_all_refusals w l1) y nc).
Proof.
  induction l1 as [|x l1 IH]; intros w y l2 nc Href Hacc.
  - cbn [app SecureTcpHost.open_loop after_all_refusals fold_left].
    unfold bind at 1. rewrite (openTcpConn_accepted y w nc) by apply Hacc.
    reflexivity.
  - cbn [app SecureTcpHost.open_loop]. unfold bind at 1.
    rewrite openTcpConn_refused by (apply Href; left; reflexivity).
    rewrite (IH _ y l2 nc).
    + reflexivity.
    + intros z Hz. apply refuses_after_refusals. apply Href. right. exact Hz.
    + intros k. apply Hacc.
Qed.

Section Negotiation.
Context `{Env}.

Lemma negotiateListen_errors sc (w : W) sc' err w' :
  SecureTcpConn.negotiateListen sc w = (Ok (sc', Some err), w') ->
  negotiation_error err /\ sc' = sc.
Proof.
  unfold SecureTcpConn.negotiateListen, bind, negotiation_error.
  destruct (TcpConn.Send _ _ w) as [[[e|]|v] w1]; [| |discriminate].
  - intros [= <- <- <-]. eauto.
  - destruct (TcpConn.Receive _ w1) as [[[nm [e|]]|v] w2]; [| |discriminate].
    + intros [= <- <- <-]. eauto.
    + destruct (negb _).
      * intros [= <- <- <-]. eauto 6.
      * destruct (Msg nm); discriminate.
Qed.

Lemma negotiateOpen_errors sc id (w : W) sc' err w' :
  SecureTcpConn.negotiateOpen sc id w = (Ok (sc', Some err), w') ->
  negotiation_error err.
Proof.
  unfold SecureTcpConn.negotiateOpen, bind.
  destruct (SecureTcpConn.negotiateListen sc w) as [[[sc1 [e|]]|v] w1] eqn:E;
    [| |discriminate].
  - intros [= <- <- <-]. apply negotiateListen_errors in E. tauto.
  - destruct (negb _); [|discriminate].
    intros [= <- <- <-]. unfold negotiation_error. tauto.
Qed.

Lemma negotiation_error_not_connect err :
  negotiation_error err -> err <> no_address_connected.
Proof.
  unfold no_address_connected.
  intros [[e ->]|[[e ->]|[[u ->]| ->]]]; cbn; discriminate.
Qed.
End Negotiation.

(** C3.  When the transport connection succeeds and the exchange of Identity
    messages completes (our identity was sent, a message of type Identity
    carrying the identity [rid] was received), the secure [Open] returns the
    connection with [rid] as the peer identity, and returns an error exactly
    when the id of [rid] differs from the id of the identity that was dialed. *)
Theorem Open_error_iff_identity_mismatch `{Env}
    (st : SecureTcpHost.t) (id rid : Identity.t) (c : ptr)
    (nm : ApplicationMessage) (w w1 w2 w3 : W) :
  SecureTcpHost.open_loop (Identity.Addresses id) w = (Ok (Some c), w1) ->
  TcpConn.Send c (PMIdentityPtr (SecureTcpHost.HostIdentity st)) w1 = (Ok None, w2) ->
  TcpConn.Receive c w2 = (Ok (nm, None), w3) ->
  MsgType nm = IdentityType ->
  Msg nm = PMIdentity rid ->
  exists err,
    SecureTcpHost.Open st id w
    = (Ok (Some (SecureTcpConn.mk c (SecureTcpHost.HostIdentity st) rid), err), w3)
    /\ (err <> None <-> Identity.Id rid <> Identity.Id id).
Proof.
  intros Hopen Hsend Hrecv Htype Hmsg.
  unfold SecureTcpHost.Open, bind at 1. rewrite Hopen.
  unfold SecureTcpConn.negotiateOpen, SecureTcpConn.negotiateListen, bind.
  cbn [SecureTcpConn.tcpConn SecureTcpConn.hostIdentity].
  rewrite Hsend, Hrecv, Htype, N.eqb_refl, Hmsg. unfold ret.
  cbn [negb SecureTcpConn.identity].
  destruct (N.eqb (Identity.Id rid) (Identity.Id id)) eqn:E; cbn [negb].
  - apply N.eqb_eq in E. eexists. split; [reflexivity|].
    split; [intros Hn; exfalso; apply Hn; reflexivity | intros Hn; contradiction].
  - apply N.eqb_neq in E. eexists. split; [reflexivity|].
    split; [intros _; exact E | intros _; discriminate].
Qed.

(** C8, as amended.  The secure [Open] tries the addresses of the identity in
    list order.  When every address refuses, it returns no connection and the
    error that no address could be connected.  When the addresses before [y]
    refuse and [y] accepts, it connects to [y], leaves the later addresses
    alone, and what it returns is the outcome of the identity negotiation
    over that connection: never the failure of an earlier address, and an
    error only when the negotiation fails. *)
Theorem Open_address_failover `{Env} (st : SecureTcpHost.t) (id : Identity.t) (w : W) :
  ((forall x, In x (Identity.Addresses id) -> refuses w x) ->
   SecureTcpHost.Open st id w
   = (Ok (None, Some no_address_connected),
      after_all_refusals w (Identity.Addresses id)))
  /\ (forall l1 y l2 nc,
        Identity.Addresses id = l1 ++ y :: l2 ->
        (forall x, In x l1 -> refuses w x) ->
        (forall k, dialer w k y = inl nc) ->
        let c := S (length (heap w)) in
        let w1 := connected (after_all_refusals w l1) y nc in
        cell c w1 = Some (TcpConn.mk y nc false)
        /\ dial_attempts (trace w1)
           = dial_attempts (trace (after_all_refusals w l1)) ++ [EvDial y true]
        /\ SecureTcpHost.Open st id w
           = (let '(r, w2) :=
                SecureTcpConn.negotiateOpen
                  (SecureTcpConn.mk c (SecureTcpHost.HostIdentity st) id) id w1 in
              (match r with
               | Ok (sc, err) => Ok (Some sc, err)
               | Panic v => Panic v
               end, w2))
        /\ (forall sc err w2,
              SecureTcpHost.Open st id w = (Ok (sc, Some err), w2) ->
              sc <> None /\ negotiation_error err /\ err <> no_address_connected)).
Proof.
  split.
  - intros Href. unfold SecureTcpHost.Open, bind at 1.
    rewrite open_loop_all_refused by exact Href. reflexivity.
  - intros l1 y l2 nc Haddr Href Hacc c w1.
    assert (HO : SecureTcpHost.Open st id w
                 = (let '(r, w2) :=
                      SecureTcpConn.negotiateOpen
                        (SecureTcpConn.mk c (SecureTcpHost.HostIdentity st) id) id w1 in
                    (match r with
                     | Ok (sc, err) => Ok (Some sc, err)
                     | Panic v => Panic v
                     end, w2))).
    { unfold SecureTcpHost.Open, bind at 1. rewrite Haddr.
      rewrite (open_loop_fails_over l1 w y l2 nc Href Hacc).
      fold c. fold w1. unfold bind at 1.
      destruct (SecureTcpConn.negotiateOpen _ id w1) as [[[sc err]|v] w2]; reflexivity. }
    split; [|split; [|split; [exact HO|]]].
    + unfold cell, c, w1, connected. cbn [heap].
      rewrite after_all_refusals_heap. apply list_lookup_middle. reflexivity.
    + unfold w1, connected, dial_attempts. cbn [trace].
      rewrite List.filter_app. reflexivity.
    + intros sc err w2. rewrite HO.
      destruct (SecureTcpConn.negotiateOpen _ id w1) as [[[sc1 [e|]]|v] w2'] eqn:E;
        [|discriminate..].
      intros [= <- <- <-]. apply negotiateOpen_errors in E.
      split; [discriminate|]. split; [exact E|].
      apply negotiation_error_not_connect. exact E.
Qed.

(** ** Closing *)

Lemma TcpHost_Close_again (h h1 : TcpHost.t) (e : option error) (w w1 : W) :
  TcpHost.Close h w = (Ok (h1, e), w1) ->
  TcpHost.Close h1 w1 = (Ok (h1, None), w1).
Proof.
  intros Hh. unfold TcpHost.Close in Hh. destruct (TcpHost.closed h) eqn:Ecl.
  - unfold ret in Hh. injection Hh as <- <- <-.
    unfold TcpHost.Close. rewrite Ecl. reflexivity.
  - unfold bind in Hh. cbn [TcpHost.peers TcpHost.quit TcpHost.listener] in Hh.
    destruct (TcpHost.close_peers (TcpHost.peers h) w) as [[[e0|]|v] w'];
      [| |discriminate].
    + unfold ret in Hh. injection Hh as <- <- <-. reflexivity.
    + destruct (TcpHost.quit h); [|discriminate].
      destruct (TcpHost.listener h) as [ln|].
      * destruct (Listener.Close ln) as [e1 ln1].
        unfold ret in Hh. injection Hh as <- <- <-. reflexivity.
      * unfold ret in Hh. injection Hh as <- <- <-. reflexivity.
Qed.

Lemma TcpConn_Close_again (c : ptr) (ec : option error) (wc wc1 : W) :
  TcpConn.Close c wc = (Ok ec, wc1) ->
  TcpConn.Close c wc1 = (Ok None, wc1).
Proof.
  intros Hc. unfold TcpConn.Close, bind, deref in Hc.
  destruct (cell c wc) as [o|] eqn:Ecell; [|discriminate].
  destruct (TcpConn.closed o) eqn:Ecl.
  - unfold ret in Hc. injection Hc as <- <-.
    unfold TcpConn.Close, bind, deref. rewrite Ecell, Ecl. reflexivity.
  - destruct (NetConn.Close (TcpConn.Conn o)) as [err nc1].
    unfold assign in Hc. rewrite Ecell in Hc.
    assert (Hcell : cell c (mkWorld (<[pred c:=TcpConn.mk (TcpConn.Endpoint o) nc1 true]>
                                       (heap wc)) (clock wc) (dialer wc) (dials wc)
                                    (binder wc) (trace wc))
                    = Some (TcpConn.mk (TcpConn.Endpoint o) nc1 true)).
    { unfold cell in *. destruct c as [|i]; [discriminate|]. cbn [heap pred].
      apply list_lookup_insert_eq. apply lookup_lt_Some in Ecell. exact Ecell. }
    destruct err as [e0|]; unfold ret in Hc; injection Hc as <- <-;
      unfold TcpConn.Close, bind, deref; rewrite Hcell; reflexivity.
Qed.

(** The same for the secure host and the secure connection, whose [Close] is
    the promoted method of the embedded host and connection. *)
Lemma Secure_Close_again
    (st st1 : SecureTcpHost.t) (e : option error) (w w1 : W)
    (sc : SecureTcpConn.t) (ec : option error) (wc wc1 : W) :
  SecureTcpHost.Close st w = (Ok (st1, e), w1) ->
  SecureTcpConn.Close sc wc = (Ok ec, wc1) ->
  SecureTcpHost.Close st1 w1 = (Ok (st1, None), w1)
  /\ SecureTcpConn.Close sc wc1 = (Ok None, wc1).
Proof.
  intros Hh Hc. split; [|exact (TcpConn_Close_again _ _ _ _ Hc)].
  unfold SecureTcpHost.Close, bind in Hh.
  destruct (TcpHost.Close (SecureTcpHost.tcpHost st) w) as [[[h1 e1]|v] w'] eqn:E;
    [|discriminate].
  unfold ret in Hh. injection Hh as <- <- <-.
  unfold SecureTcpHost.Close, bind. cbn [SecureTcpHost.tcpHost].
  rewrite (TcpHost_Close_again _ _ _ _ _ E). reflexivity.
Qed.

(** C7.  A second [Close] of a host, and a second [Close] of a connection,
    after a first call that returned, returns nil and changes nothing: neither
    the host, nor any connection, nor the rest of the world. *)
Theorem Close_twice_is_noop
    (h h1 : TcpHost.t) (e : option error) (w w1 : W)
    (c : ptr) (ec : option error) (wc wc1 : W) :
  TcpHost.Close h w = (Ok (h1, e), w1) ->
  TcpConn.Close c wc = (Ok ec, wc1) ->
  TcpHost.Close h1 w1 = (Ok (h1, None), w1)
  /\ TcpConn.Close c wc1 = (Ok None, wc1).
Proof.
  intros Hh Hc. split.
  - exact (TcpHost_Close_again h h1 e w w1 Hh).
  - exact (TcpConn_Close_again c ec wc wc1 Hc).
Qed.

(** C6.  On a host that is not closed and tracks two connections whose
    sockets both fail to close, [Close] sets the closed flag, closes the first
    connection of the range, and returns its error at once: whichever of the
    two the range visits first, the other stays open, the quit channel is not
    closed and the listener is left listening. *)
Theorem Close_returns_at_first_failing_connection :
  stops_at_first_failure [("10.0.0.1:2000", 1%nat); ("10.0.0.2:2000", 2%nat)]
  /\ stops_at_first_failure [("10.0.0.2:2000", 2%nat); ("10.0.0.1:2000", 1%nat)].
Proof.
  split; unfold stops_at_first_failure.
  - do 2 eexists. split; [vm_compute; reflexivity|]. repeat split.
    + intros Hall. destruct (Hall "10.0.0.2:2000" 2%nat) as (o & Ho & Hc).
      * right. left. reflexivity.
      * injection Ho as <-. discriminate.
    + right. reflexivity.
  - do 2 eexists. split; [vm_compute; reflexivity|]. repeat split.
    + intros Hall. destruct (Hall "10.0.0.1:2000" 1%nat) as (o & Ho & Hc).
      * right. left. reflexivity.
      * injection Ho as <-. discriminate.
    + left. reflexivity.
Qed.

(** When no tracked connection reports an error on close, the loop of [Close]
    closes every tracked connection and returns no error. *)
Lemma close_peers_all_closed (l : list (string * ptr)) : forall w : W,
  (forall name c, In (name, c) l ->
     exists o, cell c w = Some o
               /\ (TcpConn.closed o = true
                   \/ fst (NetConn.Close (TcpConn.Conn o)) = None)) ->
  exists w',
    TcpHost.close_peers l w = (Ok None, w')
    /\ length (heap w') = length (heap w)
    /\ (forall name c, In (name, c) l ->
          exists o, cell c w' = Some o /\ TcpConn.closed o = true)
    /\ (forall c o, cell c w = Some o -> TcpConn.closed o = true -> cell c w' = Some o).
Proof.
  induction l as [|[name c] l IH]; intros w Hok.
  - exists w. cbn. repeat split; [intros ? ? []|auto].
  - destruct (Hok name c (or_introl eq_refl)) as (o & Ho & Hcl).
    cbn [TcpHost.close_peers]. unfold bind at 1.
    unfold TcpConn.Close at 1. unfold bind at 1, deref at 1. rewrite Ho.
    destruct (TcpConn.closed o) eqn:Eclosed.
    + unfold ret at 1.
      destruct (IH w) as (w' & Hrun & Hlen & Hall & Hkeep).
      { intros n' c' Hin. apply (Hok n' c'). right. exact Hin. }
      exists w'. split; [exact Hrun|]. split; [exact Hlen|]. split; [|exact Hkeep].
      intros n' c' [[= <- <-]|Hin]; [|eauto].
      exists o. split; [apply Hkeep; assumption | assumption].
    + destruct Hcl as [Hcl|Hcl]; [congruence|].
      destruct (NetConn.Close (TcpConn.Conn o)) as [err nc1]. cbn [fst] in Hcl. subst err.
      unfold bind at 1, assign at 1. rewrite Ho. unfold ret at 1.
      set (o1 := TcpConn.mk (TcpConn.Endpoint o) nc1 true).
      set (w1 := mkWorld (<[pred c:=o1]> (heap w)) (clock w) (dialer w) (dials w)
                         (binder w) (trace w)).
      assert (Hc1 : cell c w1 = Some o1).
      { unfold cell in *. destruct c as [|i]; [discriminate|]. cbn [heap pred w1].
        apply list_lookup_insert_eq. apply lookup_lt_Some in Ho. exact Ho. }
      assert (Hother : forall c', c' <> c -> cell c' w1 = cell c' w).
      { intros c' Hne. unfold cell. destruct c' as [|i']; [reflexivity|].
        cbn [heap w1]. destruct c as [|i]; [discriminate|]. cbn [pred].
        apply list_lookup_insert_ne. congruence. }
      destruct (IH w1) as (w' & Hrun & Hlen & Hall & Hkeep).
      { intros n' c' Hin. destruct (Nat.eq_dec c' c) as [->|Hne].
        - exists o1. split; [exact Hc1 | left; reflexivity].
        - rewrite (Hother c' Hne). apply (Hok n' c'). right. exact Hin. }
      exists w'. split; [exact Hrun|]. split.
      { rewrite Hlen. cbn [heap w1]. apply length_insert. }
      split.
      * intros n' c' [[= <- <-]|Hin]; [|eauto].
        exists o1. split; [apply Hkeep; [exact Hc1 | reflexivity] | reflexivity].
      * intros c' o' Ho' Hcl'. apply Hkeep; [|exact Hcl'].
        destruct (Nat.eq_dec c' c) as [->|Hne]; [congruence|].
        rewrite (Hother c' Hne). exact Ho'.
Qed.

Lemma Close_closes_everything_when_no_close_fails (h : TcpHost.t) (w : W) :
  TcpHost.closed h = false ->
  TcpHost.quit h = chan_open ->
  (forall name c, In (name, c) (TcpHost.peers h) ->
     exists o, cell c w = Some o
               /\ (TcpConn.closed o = true
                   \/ fst (NetConn.Close (TcpConn.Conn o)) = None)) ->
  exists h' e w',
    TcpHost.Close h w = (Ok (h', e), w')
    /\ TcpHost.closed h' = true
    /\ all_peers_closed h' w'
    /\ TcpHost.quit h' = chan_closed
    /\ TcpHost.peers h' = TcpHost.peers h
    /\ match TcpHost.listener h, TcpHost.listener h' with
       | Some ln, Some ln' => ln' = snd (Listener.Close ln) /\ e = fst (Listener.Close ln)
       | None, None => e = None
       | _, _ => False
       end.
Proof.
  intros Hcl Hq Hok.
  destruct (close_peers_all_closed (TcpHost.peers h) w Hok) as (w' & Hrun & _ & Hall & _).
  unfold TcpHost.Close. rewrite Hcl. unfold bind.
  cbn [TcpHost.peers TcpHost.quit TcpHost.listener TcpHost.closed].
  rewrite Hrun, Hq.
  destruct (TcpHost.listener h) as [ln|] eqn:Eln.
  - destruct (Listener.Close ln) as [e ln1] eqn:Ecl.
    eexists _, _, _. split; [reflexivity|]. cbn. repeat split; try reflexivity.
    exact Hall.
  - eexists _, _, _. split; [reflexivity|]. cbn. repeat split; try reflexivity.
    exact Hall.
Qed.

(** ** Receiving *)

Section Receiving.
Context `{Env}.

(** A decode error is reported: [Receive] returns a non-nil error, and the
    connection is left as the reads left it, neither closed nor dropped. *)
Lemma Receive_decode_error (c : ptr) (w : W) (o : TcpConn.t) buffer nc1 am1 err :
  cell c w = Some o ->
  TcpConn.read_loop (S (length (NetConn.reads (TcpConn.Conn o)))) (TcpConn.Conn o) []
  = Some (buffer, None, nc1) ->
  UnmarshalBinary zero_ApplicationMessage buffer = Returned am1 (Some err) ->
  exists e w',
    TcpConn.Receive c w = (Ok (EmptyApplicationMessage, Some e), w')
    /\ cell c w' = Some (TcpConn.mk (TcpConn.Endpoint o) nc1 (TcpConn.closed o))
    /\ trace w' = trace w.
Proof.
  intros Hcell Hread Hdec.
  unfold TcpConn.Receive, bind at 1, deref at 1. rewrite Hcell, Hread.
  unfold bind at 1, assign at 1. rewrite Hcell, Hdec.
  unfold defer_recover, ret. eexists _, _. split; [reflexivity|].
  split; [|reflexivity].
  unfold cell in *. destruct c as [|i]; [discriminate|]. cbn [heap pred].
  apply list_lookup_insert_eq. apply lookup_lt_Some in Hcell. exact Hcell.
Qed.

(** A panic while decoding is recovered and printed, but [Receive] then
    returns the zero message with a nil error. *)
Lemma Receive_decode_panic (c : ptr) (w : W) (o : TcpConn.t) buffer nc1 am1 v :
  cell c w = Some o ->
  TcpConn.read_loop (S (length (NetConn.reads (TcpConn.Conn o)))) (TcpConn.Conn o) []
  = Some (buffer, None, nc1) ->
  UnmarshalBinary zero_ApplicationMessage buffer = Panicked am1 v ->
  exists w',
    TcpConn.Receive c w = (Ok (zero_ApplicationMessage, None), w')
    /\ cell c w' = Some (TcpConn.mk (TcpConn.Endpoint o) nc1 (TcpConn.closed o))
    /\ trace w'
       = trace w ++ [EvPrint "Error Unmarshalling %s: %dbytes : %v\n"
                             [AUuid (MsgType am1); AInt (len buffer); AStr v]].
Proof.
  intros Hcell Hread Hdec.
  unfold TcpConn.Receive, bind at 1, deref at 1. rewrite Hcell, Hread.
  unfold bind at 1, assign at 1. rewrite Hcell, Hdec.
  unfold defer_recover, panic, emit. eexists. split; [reflexivity|].
  split; [|reflexivity].
  unfold cell in *. destruct c as [|i]; [discriminate|]. cbn [heap pred].
  apply list_lookup_insert_eq. apply lookup_lt_Some in Hcell. exact Hcell.
Qed.
End Receiving.

(** C5.  A connection receives an Identity message cut after its type tag,
    then a whole one.  Decoding the first buffer panics; [Receive] recovers,
    prints, and returns the zero message with a nil error, so its caller is
    not told.  The connection stays usable: the next [Receive] on it returns
    the second message. *)
Theorem Receive_returns_nil_error_when_decode_panics :
  let c := TcpConn.mk "10.0.0.2:2000"
             (peer_sending [[Byte.x01]; [Byte.x01; Byte.x07]] None) false in
  @UnmarshalBinary sample_env zero_ApplicationMessage [Byte.x01]
  = Panicked (mkAM "" zero_Identity 1%N PMnil) "runtime error: index out of range"
  /\ exists w1 w2 : W,
       @TcpConn.Receive sample_env 1%nat (world_of [c])
       = (Ok (zero_ApplicationMessage, None), w1)
       /\ (exists o, cell 1%nat w1 = Some o /\ TcpConn.closed o = false)
       /\ @TcpConn.Receive sample_env 1%nat w1
          = (Ok (mkAM "10.0.0.2:2000" zero_Identity 1%N (PMIdentity (sample_Identity 7%N)),
                 None), w2).
Proof.
  intros c. split; [reflexivity|].
  eexists _, _. split; [subst c; vm_compute; reflexivity|].
  split; [eexists; split; reflexivity|]. vm_compute. reflexivity.
Qed.

(** The read loop of [Receive] always ends within the fuel [Receive] gives
    it: every pass uses up one entry of the read script or leaves the loop. *)
Lemma read_loop_ends (fuel : nat) : forall (nc : NetConn.t) (buffer : bytes),
  (length (NetConn.reads nc) < fuel)%nat ->
  TcpConn.read_loop fuel nc buffer <> None.
Proof.
  induction fuel as [|fuel IH]; intros nc buffer Hlen; [lia|].
  cbn [TcpConn.read_loop]. unfold NetConn.Read.
  destruct (NetConn.os_closed nc); [discriminate|].
  destruct (NetConn.reads nc) as [|[data [e|]] rest] eqn:Er; try discriminate.
  destruct (_ <? _)%nat; [discriminate|].
  apply IH. cbn [NetConn.reads]. cbn [length] in Hlen. lia.
Qed.

(** ** Identity negotiation *)

(** C2.  On the open side a failed negotiation does not drop the connection.
    Whether the peer answers under another id, answers with a message that is
    not an Identity, closes before answering, or cannot be written to, the
    secure [Open] returns the error together with the connection, and the
    connection is still open. *)
Theorem Open_failed_negotiation_leaves_connection_open :
  error_with_open_connection
    (@SecureTcpHost.Open sample_env sample_host dialed
       (world_dialing (answering (peer_sending [[Byte.x01; Byte.x09]] None))))
  /\ error_with_open_connection
       (@SecureTcpHost.Open sample_env sample_host dialed
          (world_dialing (answering (peer_sending [[Byte.x02; Byte.x00]] None))))
  /\ error_with_open_connection
       (@SecureTcpHost.Open sample_env sample_host dialed
          (world_dialing (answering (peer_sending [] None))))
  /\ error_with_open_connection
       (@SecureTcpHost.Open sample_env sample_host dialed
          (world_dialing (answering
             (NetConn.mk [] [Some broken_pipe] None [] None false)))).
Proof.
  repeat split; unfold error_with_open_connection;
    eexists _, _, _, _;
    (split; [vm_compute; reflexivity | repeat split; reflexivity]).
Qed.

Lemma spawned_print tr f args : spawned (tr ++ [EvPrint f args]) = spawned tr.
Proof. unfold spawned. rewrite List.filter_app. cbn. apply app_nil_r. Qed.

Section ListenSide.
Context `{Env}.

Lemma Send_keeps_trace c obj (w w1 : W) r :
  TcpConn.Send c obj w = (r, w1) -> trace w1 = trace w.
Proof.
  unfold TcpConn.Send, bind, deref, assign, time_Now, ret. intros Hs.
  repeat case_match; simplify_eq; reflexivity.
Qed.

Lemma Receive_spawns_nothing c (w w1 : W) r :
  TcpConn.Receive c w = (r, w1) -> spawned (trace w1) = spawned (trace w).
Proof.
  unfold TcpConn.Receive, TcpConn.Remote, defer_recover, bind, deref, assign,
    ret, panic, emit.
  intros Hr.
  repeat case_match; simplify_eq; cbn [trace]; rewrite ?spawned_print; reflexivity.
Qed.

Lemma negotiateListen_spawns_nothing sc (w w1 : W) r :
  SecureTcpConn.negotiateListen sc w = (r, w1) ->
  spawned (trace w1) = spawned (trace w).
Proof.
  unfold SecureTcpConn.negotiateListen, bind. intros Hn.
  destruct (TcpConn.Send _ _ w) as [rs ws] eqn:Es.
  apply Send_keeps_trace in Es. rewrite <- Es.
  destruct rs as [[e|]|v]; unfold ret, panic in Hn; try (injection Hn as <- <-; reflexivity).
  destruct (TcpConn.Receive _ ws) as [rr wr] eqn:Er.
  apply Receive_spawns_nothing in Er. rewrite <- Er.
  unfold ret, panic in Hn. repeat case_match; simplify_eq; reflexivity.
Qed.

(** The listen side.  When the negotiation on an accepted connection fails, the receiver of [Listen] closes the connection and
    returns: no handler goroutine is spawned for it. *)
Lemma receiver_drops_failed_negotiation
    (st : SecureTcpHost.t) (c : ptr) (w w1 : W) sc1 err (o : TcpConn.t) :
  SecureTcpConn.negotiateListen
    (SecureTcpConn.mk c (SecureTcpHost.HostIdentity st) zero_Identity) w
  = (Ok (sc1, Some err), w1) ->
  cell c w1 = Some o ->
  exists w2,
    SecureTcpHost.receiver st c w = (Ok tt, w2)
    /\ (exists o2, cell c w2 = Some o2 /\ TcpConn.closed o2 = true)
    /\ spawned (trace w2) = spawned (trace w).
Proof.
  intros Hn Hcell.
  pose proof (negotiateListen_spawns_nothing _ _ _ _ Hn) as Hsp.
  pose proof (negotiateListen_errors _ _ _ _ _ Hn) as [_ ->].
  unfold SecureTcpHost.receiver, bind at 1. rewrite Hn.
  unfold bind at 1, emit at 1. unfold SecureTcpConn.Close.
  cbn [SecureTcpConn.tcpConn].
  set (w1' := mkWorld (heap w1) (clock w1) (dialer w1) (dials w1) (binder w1)
                      (trace w1 ++ [EvPrint "Negociation failed" []])).
  assert (Hcell' : cell c w1' = Some o) by exact Hcell.
  unfold bind at 1, TcpConn.Close, bind at 1, deref. rewrite Hcell'.
  destruct (TcpConn.closed o) eqn:Ecl.
  - unfold ret. eexists. split; [reflexivity|]. split.
    + exists o. split; assumption.
    + cbn [trace w1']. rewrite spawned_print. exact Hsp.
  - destruct (NetConn.Close (TcpConn.Conn o)) as [e nc1].
    unfold bind, assign. rewrite Hcell'.
    assert (Hnew : forall tr,
              cell c (mkWorld (<[pred c:=TcpConn.mk (TcpConn.Endpoint o) nc1 true]>
                                 (heap w1')) (clock w1') (dialer w1') (dials w1')
                              (binder w1') tr)
              = Some (TcpConn.mk (TcpConn.Endpoint o) nc1 true)).
    { intros tr. unfold cell in *. destruct c as [|i]; [discriminate|].
      cbn [heap pred]. apply list_lookup_insert_eq.
      apply lookup_lt_Some in Hcell'. exact Hcell'. }
    destruct e as [e|]; unfold ret; (eexists; split; [reflexivity|]); split.
    + eexists. split; [apply Hnew | reflexivity].
    + cbn [trace w1']. rewrite spawned_print. exact Hsp.
    + eexists. split; [apply Hnew | reflexivity].
    + cbn [trace w1']. rewrite spawned_print. exact Hsp.
Qed.
End ListenSide.

(** ** Shutting the simulation down *)

(** C9, as amended.  The tree the CloseAll protocol is created on is chosen by
    the SingleHost setting of the configuration alone: with SingleHost it is
    the tree generated from the roster, which is also registered with the
    overlay; without it, it is the working tree, whatever that tree does with
    the identities.  A working tree that does not use the whole roster is
    reported with log.Error and the run goes on: CloseAll is still created.
    When creating CloseAll gives an error the run does not complete. *)
Theorem close_all_tree_follows_SingleHost `{Simul.Sda}
    (sc : Simul.SimulationConfig) (env : Simul.Answers) :
  Simul.created_on "CloseAll" (fst (Simul.close_all sc env)) = [Simul.closeTree sc]
  /\ (Simul.GetSingleHost sc = true ->
      Simul.closeTree sc = Simul.GenerateBinaryTree (Simul.SCRoster sc)
      /\ In (Simul.RegisterTree (Simul.GenerateBinaryTree (Simul.SCRoster sc)))
            (fst (Simul.close_all sc env)))
  /\ (Simul.GetSingleHost sc = false -> Simul.closeTree sc = Simul.SCTree sc)
  /\ (Simul.UsesList (Simul.SCTree sc) = false ->
      In (Simul.LogError Simul.tree_not_using_list)
         (fst (Simul.close_all sc env)))
  /\ (Simul.closeall_create env (Simul.closeTree sc) = (true, None) ->
      snd (Simul.close_all sc env) = Simul.Completed
      /\ In (Simul.Start "CloseAll") (fst (Simul.close_all sc env)))
  /\ (snd (Simul.closeall_create env (Simul.closeTree sc)) <> None ->
      snd (Simul.close_all sc env) <> Simul.Completed).
Proof.
  unfold Simul.close_all, Simul.closeTree.
  destruct (Simul.GetSingleHost sc) eqn:Esh;
    destruct (Simul.UsesList (Simul.SCTree sc)) eqn:Eul;
    destruct (Simul.closeall_create env _) as [[|] [e|]] eqn:Ecr;
    cbn; repeat split; intros; try discriminate; try congruence; auto 10.
Qed.

(** * Instances of the theorems and counterexamples *)

Lemma Identity_iterator_witness :
  Identity.cursor_ok two_addresses
  /\ Identity.First two_addresses = Ok "10.0.0.1:2000"
  /\ exists id',
       Identity.Next_calls 4 two_addresses
       = Ok (["10.0.0.1:2000"; "10.0.0.2:2000"; ""; ""], id')
       /\ Identity.cursor_ok id'
       /\ Identity.Addresses id' = Identity.Addresses two_addresses.
Proof.
  assert (Hok : Identity.cursor_ok two_addresses).
  { unfold Identity.cursor_ok, GoInt.max_int, len. cbn. lia. }
  split; [exact Hok|].
  exact (Identity_iterator_total_in_bounds two_addresses 4 Hok).
Defined.



Lemma Open_error_iff_identity_mismatch_witness :
  exists w3 err,
    @SecureTcpHost.Open sample_env sample_host dialed (peer_identifying Byte.x09)
    = (Ok (Some (SecureTcpConn.mk 1%nat (SecureTcpHost.HostIdentity sample_host)
                                  (sample_Identity 9%N)), err), w3)
    /\ (err <> None <-> Identity.Id (sample_Identity 9%N) <> Identity.Id dialed).
Proof.
  eexists.
  exact (@Open_error_iff_identity_mismatch sample_env sample_host dialed
           (sample_Identity 9%N) 1%nat
           (mkAM "10.0.0.2:2000" zero_Identity 1%N (PMIdentity (sample_Identity 9%N)))
           (peer_identifying Byte.x09) _ _ _
           eq_refl eq_refl eq_refl eq_refl eq_refl).
Defined.

Lemma Close_twice_witness :
  exists h1 e w1 ec wc1,
    TcpHost.Close listening_host two_healthy = (Ok (h1, e), w1)
    /\ TcpConn.Close 2%nat two_healthy = (Ok ec, wc1)
    /\ TcpHost.Close h1 w1 = (Ok (h1, None), w1)
    /\ TcpConn.Close 2%nat wc1 = (Ok None, wc1).
Proof.
  eexists _, _, _, _, _.
  split; [vm_compute; reflexivity|]. split; [vm_compute; reflexivity|].
  eapply (Close_twice_is_noop listening_host _ _ two_healthy _ 2%nat _ two_healthy _);
    vm_compute; reflexivity.
Defined.

(** C8, the claim as first stated, fails: the second address of the identity
    accepts the connection, yet [Open] returns an error, because the peer
    there answers under another id. *)
Lemma Open_fails_although_address_dialable :
  let w := peer_identifying Byte.x09 in
  refuses w "10.0.0.1:2000"
  /\ (forall k, dialer w k "10.0.0.2:2000"
                = inl (peer_sending [[Byte.x01; Byte.x09]] None))
  /\ exists sc w',
       @SecureTcpHost.Open sample_env sample_host two_addresses w
       = (Ok (Some sc,
              Some (errorString "Identity received during negotiation is wrong. WARNING")),
          w').
Proof.
  intros w. split; [intros k; eexists; reflexivity|].
  split; [intros k; reflexivity|].
  eexists _, _. vm_compute. reflexivity.
Qed.

Lemma Open_address_failover_witness :
  let w := peer_identifying Byte.x07 in
  let nc := peer_sending [[Byte.x01; Byte.x07]] None in
  (forall x, In x ["10.0.0.1:2000"] -> refuses w x)
  /\ (forall k, dialer w k "10.0.0.2:2000" = inl nc)
  /\ dial_attempts
       (trace (connected (after_all_refusals w ["10.0.0.1:2000"]) "10.0.0.2:2000" nc))
     = repeat (EvDial "10.0.0.1:2000" false) 10 ++ [EvDial "10.0.0.2:2000" true]
  /\ exists sc w2,
       @SecureTcpHost.Open sample_env sample_host two_addresses w
       = (Ok (Some sc, None), w2).
Proof.
  intros w nc.
  assert (Href : forall x, In x ["10.0.0.1:2000"] -> refuses w x).
  { intros x [<-|[]] k. eexists. reflexivity. }
  assert (Hacc : forall k, dialer w k "10.0.0.2:2000" = inl nc).
  { intros k. reflexivity. }
  split; [exact Href|]. split; [exact Hacc|].
  destruct (proj2 (@Open_address_failover sample_env sample_host two_addresses w)
              ["10.0.0.1:2000"] "10.0.0.2:2000" [] nc eq_refl Href Hacc)
    as (_ & Hdials & HO & _).
  split; [exact Hdials|].
  eexists _, _. rewrite HO. vm_compute. reflexivity.
Defined.

(** C9, the claim as first stated, fails: the working tree gives two slots to
    one identity, the configuration is not SingleHost, and CloseAll is created
    on the working tree itself; the driver logs an error and the run goes on
    to its end. *)
Lemma CloseAll_runs_on_aliased_tree :
  Simul.aliases aliased_tree
  /\ Simul.UsesList_spec aliased_tree = false
  /\ Simul.created_on "CloseAll" (fst (@Simul.root_part Sda_spec 1 aliased_config all_counted))
     = [aliased_tree]
  /\ snd (@Simul.root_part Sda_spec 1 aliased_config all_counted) = Simul.Completed
  /\ In (Simul.LogError Simul.tree_not_using_list)
        (fst (@Simul.root_part Sda_spec 1 aliased_config all_counted)).
Proof.
  split.
  - intros Hnd. inversion Hnd as [|x l Hnotin _]; subst. apply Hnotin. left.
  - repeat split; [vm_compute; reflexivity ..|].
    vm_compute. tauto.
Qed.

Lemma close_all_witness :
  Simul.created_on "CloseAll"
    (fst (@Simul.close_all Sda_spec
            (Simul.mkSC aliased_tree [1; 2]%N true) all_counted))
  = [Simul.mkTree [1; 2]%N [1; 2]%N]
  /\ snd (@Simul.close_all Sda_spec
            (Simul.mkSC aliased_tree [1; 2]%N true) all_counted)
     = Simul.Completed.
Proof.
  pose proof (@close_all_tree_follows_SingleHost Sda_spec
                (Simul.mkSC aliased_tree [1; 2]%N true) all_counted)
    as (Hcreated & _ & _ & _ & Hdone & _).
  split; [exact Hcreated | exact (proj1 (Hdone eq_refl))].
Defined.

(** * Further properties of the code *)

(** ** Classifying errors *)

Lemma handleError_cases (e : error) :
  In (handleError e) sentinels
  /\ (handleError e = ErrEOF -> handleError (handleError e) = ErrEOF)
  /\ (handleError e <> ErrEOF -> handleError (handleError e) = ErrUnknown).
Proof.
  assert (Hin : In (handleError e) sentinels).
  { unfold handleError, sentinels.
    destruct (Contains (Error e) "use of closed"); [cbn; tauto|].
    destruct (Contains (Error e) "canceled"); [cbn; tauto|].
    destruct (is_io_EOF e || Contains (Error e) "EOF"); [cbn; tauto|].
    destruct e as [| | | | | | |m|m [|] [|]]; cbn; tauto. }
  split; [exact Hin|].
  unfold sentinels in Hin. cbn [In] in Hin.
  destruct Hin as [H|[H|[H|[H|[H|[H|[]]]]]]]; rewrite <- H;
    split; intros H'; try reflexivity; try discriminate; try congruence.
Qed.

(** X1.  [handleError] always gives one of the six errors of the package; and
    given one of its own results again, it keeps [ErrEOF] and turns every
    other one, [ErrClosed] and [ErrCanceled] included, into [ErrUnknown]. *)
Theorem handleError_sentinel_not_idempotent (e : error) :
  In (handleError e) sentinels
  /\ (handleError e = ErrEOF -> handleError (handleError e) = ErrEOF)
  /\ (handleError e <> ErrEOF -> handleError (handleError e) = ErrUnknown).
Proof. exact (handleError_cases e). Qed.

(** ** What closing touches *)

Lemma cell_assign_other {Obj : Type} (w : World Obj) (c p : ptr) (o : Obj) hp cl d n b tr :
  p <> c -> heap w = hp ->
  cell p (mkWorld (<[pred c:=o]> hp) cl d n b tr) = cell p w \/ c = 0%nat.
Proof.
  intros Hne <-. destruct c as [|j]; [right; reflexivity|left].
  unfold cell. destruct p as [|i]; [reflexivity|]. cbn [heap pred].
  apply list_lookup_insert_ne. congruence.
Qed.

(** Closing a connection leaves every other heap cell, the trace and the clock
    as they were; an error it returns went through [handleError]. *)
Lemma TcpConn_Close_effect (c : ptr) (w w1 : W) r :
  TcpConn.Close c w = (r, w1) ->
  trace w1 = trace w
  /\ clock w1 = clock w
  /\ (forall p, p <> c -> cell p w1 = cell p w)
  /\ (forall e, r = Ok (Some e) -> exists e0, e = handleError e0).
Proof.
  unfold TcpConn.Close, bind, deref, assign, ret. intros Hc.
  destruct (cell c w) as [o|] eqn:Ecell.
  - destruct (TcpConn.closed o).
    + injection Hc as <- <-. repeat split; intros; try discriminate.
    + destruct (NetConn.Close (TcpConn.Conn o)) as [err nc1].
      rewrite Ecell in Hc.
      assert (Hother : forall p hp tr, p <> c -> hp = heap w ->
                cell p (mkWorld (<[pred c:=TcpConn.mk (TcpConn.Endpoint o) nc1 true]> hp)
                                (clock w) (dialer w) (dials w) (binder w) tr)
                = cell p w).
      { intros p hp tr Hne ->.
        destruct (cell_assign_other w c p (TcpConn.mk (TcpConn.Endpoint o) nc1 true)
                    (heap w) (clock w) (dialer w) (dials w) (binder w) tr Hne eq_refl)
          as [H|H]; [exact H|]. subst c. discriminate. }
      destruct err as [e0|]; injection Hc as <- <-; repeat split;
        try (intros p Hne; apply Hother; [exact Hne | reflexivity]).
      * intros e [= <-]. eauto.
      * intros e [=].
  - injection Hc as <- <-. repeat split; intros; discriminate.
Qed.

Lemma close_peers_effect (l : list (string * ptr)) : forall (w w1 : W) r,
  TcpHost.close_peers l w = (r, w1) ->
  trace w1 = trace w
  /\ clock w1 = clock w
  /\ (forall p, ~ In p (map_values l) -> cell p w1 = cell p w)
  /\ (forall e, r = Ok (Some e) -> e = ErrEOF \/ e = ErrUnknown).
Proof.
  induction l as [|[name c] l IH]; intros w w1 r Hrun.
  - cbn in Hrun. injection Hrun as <- <-. repeat split; intros; discriminate.
  - cbn [TcpHost.close_peers] in Hrun. unfold bind at 1 in Hrun.
    destruct (TcpConn.Close c w) as [rc wc] eqn:Ec.
    destruct (TcpConn_Close_effect c w wc rc Ec) as (Ht & Hk & Hcell & Herr).
    assert (Hfirst : forall p, ~ In p (map_values ((name, c) :: l)) -> cell p wc = cell p w).
    { intros p Hp. apply Hcell. intros ->. apply Hp. left. reflexivity. }
    destruct rc as [[e|]|v].
    + injection Hrun as <- <-. repeat split; try assumption.
      intros e' [= <-]. destruct (Herr e eq_refl) as [e0 ->].
      destruct (handleError_cases e0) as (_ & Heof & Hnot).
      destruct (error_eq_dec (handleError e0) ErrEOF) as [Hd|Hd]; [left|right]; auto.
    + destruct (IH wc w1 r Hrun) as (Ht' & Hk' & Hcell' & Herr').
      repeat split; try congruence; [|exact Herr'].
      intros p Hp. rewrite Hcell'; [apply Hfirst; exact Hp|].
      intros Hin. apply Hp. right. exact Hin.
    + injection Hrun as <- <-. repeat split; try assumption. intros e [=].
Qed.

Lemma TcpHost_Close_frame (h : TcpHost.t) (w w1 : W) r :
  TcpHost.Close h w = (r, w1) ->
  trace w1 = trace w
  /\ clock w1 = clock w
  /\ (forall p, ~ In p (map_values (TcpHost.peers h)) -> cell p w1 = cell p w).
Proof.
  unfold TcpHost.Close. intros Hc.
  destruct (TcpHost.closed h).
  - injection Hc as <- <-. repeat split.
  - unfold bind in Hc. cbn [TcpHost.peers TcpHost.quit TcpHost.listener] in Hc.
    destruct (TcpHost.close_peers (TcpHost.peers h) w) as [rp wp] eqn:Ep.
    destruct (close_peers_effect _ _ _ _ Ep) as (Ht & Hk & Hcell & _).
    assert (w1 = wp) as ->.
    { unfold ret, panic in Hc. repeat case_match; simplify_eq; reflexivity. }
    repeat split; assumption.
Qed.

(** X2.  [TcpHost.Close] touches nothing but the connections it tracks: a
    connection whose pointer is not in the map of the host is left as it was,
    whatever [Close] returns, and so are the trace and the clock. *)
Theorem TcpHost_Close_leaves_untracked_connections (h : TcpHost.t) (w w1 : W) r :
  TcpHost.Close h w = (r, w1) ->
  trace w1 = trace w
  /\ clock w1 = clock w
  /\ (forall p, ~ In p (map_values (TcpHost.peers h)) -> cell p w1 = cell p w).
Proof. exact (TcpHost_Close_frame h w w1 r). Qed.

Lemma TcpHost_Close_leaves_untracked_witness :
  exists r w1,
    TcpHost.Close (TcpHost.mk [("10.0.0.1:2000", 1%nat)] None chan_open false)
                  two_healthy = (r, w1)
    /\ cell 2%nat w1 = Some (healthy_conn "10.0.0.2:2000")
    /\ trace w1 = trace two_healthy.
Proof.
  eexists _, _. split; [vm_compute; reflexivity|].
  destruct (TcpHost_Close_leaves_untracked_connections
              (TcpHost.mk [("10.0.0.1:2000", 1%nat)] None chan_open false)
              two_healthy _ _ eq_refl) as (Ht & _ & Hcell).
  split; [|exact Ht].
  rewrite Hcell; [reflexivity|].
  cbn. intros [H|[]]. discriminate.
Defined.

(** X3.  On a host whose quit channel is open, an error that
    [TcpHost.Close] returns from its loop over the connections (the quit
    channel is then still open) has been classified twice, by [TcpConn.Close]
    and again by [TcpHost.Close]: it is [ErrEOF] or [ErrUnknown], never
    [ErrClosed], [ErrCanceled], [ErrTemp] or [ErrTimeout].  An error returned
    once the quit channel is closed is the unclassified error of closing the
    listener. *)
Theorem TcpHost_Close_error_classified_twice
    (h h1 : TcpHost.t) (w w1 : W) (e : error) :
  TcpHost.quit h = chan_open ->
  TcpHost.Close h w = (Ok (h1, Some e), w1) ->
  match TcpHost.quit h1 with
  | chan_open => e = ErrEOF \/ e = ErrUnknown
  | chan_closed =>
      exists ln, TcpHost.listener h = Some ln /\ fst (Listener.Close ln) = Some e
  end.
Proof.
  unfold TcpHost.Close. intros Hq Hc.
  destruct (TcpHost.closed h); [discriminate|].
  unfold bind in Hc. cbn [TcpHost.peers TcpHost.quit TcpHost.listener] in Hc.
  destruct (TcpHost.close_peers (TcpHost.peers h) w) as [rp wp] eqn:Ep.
  destruct (close_peers_effect _ _ _ _ Ep) as (_ & _ & _ & Herr).
  rewrite Hq in Hc.
  destruct rp as [[e0|]|v]; [| |discriminate].
  - unfold ret in Hc. injection Hc as <- <- <-. cbn [TcpHost.quit].
    apply Herr. reflexivity.
  - destruct (TcpHost.listener h) as [ln|] eqn:Eln.
    + destruct (Listener.Close ln) as [e1 ln1] eqn:Ecl.
      unfold ret in Hc. simplify_eq. cbn [TcpHost.quit].
      exists ln. rewrite Ecl. split; reflexivity.
    + unfold ret in Hc. discriminate.
Qed.

Lemma TcpHost_Close_error_classified_twice_witness :
  let o := TcpConn.mk "10.0.0.1:2000" (peer_sending [] (Some temporary_close_failure)) false in
  exists h1 w1,
    fst (TcpConn.Close 1%nat (world_of [o])) = Ok (Some ErrTemp)
    /\ TcpHost.Close (TcpHost.mk [("10.0.0.1:2000", 1%nat)] None chan_open false)
                     (world_of [o]) = (Ok (h1, Some ErrUnknown), w1)
    /\ (ErrUnknown = ErrEOF \/ ErrUnknown = ErrUnknown).
Proof.
  intros o. eexists _, _. split; [vm_compute; reflexivity|].
  split; [vm_compute; reflexivity|].
  exact (TcpHost_Close_error_classified_twice
           (TcpHost.mk [("10.0.0.1:2000", 1%nat)] None chan_open false)
           (TcpHost.mk [("10.0.0.1:2000", 1%nat)] None chan_open true)
           (world_of [o]) _ ErrUnknown eq_refl eq_refl).
Defined.

(** ** Using a connection after it was closed *)

Lemma cell_assign_same {Obj : Type} (w : World Obj) (c : ptr) (o o' : Obj) cl d n b tr :
  cell c w = Some o ->
  cell c (mkWorld (<[pred c:=o']> (heap w)) cl d n b tr) = Some o'.
Proof.
  intros Hcell. unfold cell in *. destruct c as [|i]; [discriminate|].
  cbn [heap pred]. apply list_lookup_insert_eq. apply lookup_lt_Some in Hcell. exact Hcell.
Qed.

Lemma handleError_use_of_closed : handleError NetConn.use_of_closed = ErrClosed.
Proof. reflexivity. Qed.

(** After [Close] the socket of the connection is closed. *)
Lemma TcpConn_Close_closes_socket (c : ptr) (w : W) (o : TcpConn.t) :
  cell c w = Some o ->
  TcpConn.closed o = false ->
  exists ec nc1,
    TcpConn.Close c w
    = (Ok ec, mkWorld (<[pred c:=TcpConn.mk (TcpConn.Endpoint o) nc1 true]> (heap w))
                      (clock w) (dialer w) (dials w) (binder w) (trace w))
    /\ NetConn.os_closed nc1 = true
    /\ NetConn.sent nc1 = NetConn.sent (TcpConn.Conn o)
    /\ NetConn.reads nc1 = NetConn.reads (TcpConn.Conn o).
Proof.
  intros Hcell Hcl. unfold TcpConn.Close, bind, deref, assign, ret.
  rewrite Hcell, Hcl. unfold NetConn.Close.
  destruct (NetConn.os_closed (TcpConn.Conn o)) eqn:Eos; rewrite Hcell.
  - eexists _, _. split; [reflexivity|]. repeat split. exact Eos.
  - destruct (NetConn.close_result (TcpConn.Conn o));
      (eexists _, _; split; [reflexivity|]; repeat split).
Qed.

(** X4.  Once a connection has been closed with [Close], [Receive] on it
    returns [ErrClosed], and [Send] of a message that encodes returns
    [ErrClosed] without anything being written. *)
Theorem closed_connection_reports_ErrClosed `{Env}
    (c : ptr) (w : W) (o : TcpConn.t) (obj : ProtocolMessage)
    (am : ApplicationMessage) (b : bytes) :
  cell c w = Some o ->
  TcpConn.closed o = false ->
  newApplicationMessage obj = inl am ->
  MarshalBinary am = inl b ->
  exists ec w1,
    TcpConn.Close c w = (Ok ec, w1)
    /\ fst (TcpConn.Receive c w1) = Ok (EmptyApplicationMessage, Some ErrClosed)
    /\ fst (TcpConn.Send c obj w1) = Ok (Some ErrClosed)
    /\ exists o2, cell c (snd (TcpConn.Send c obj w1)) = Some o2
                  /\ NetConn.sent (TcpConn.Conn o2) = NetConn.sent (TcpConn.Conn o).
Proof.
  intros Hcell Hcl Hconv Hmar.
  destruct (TcpConn_Close_closes_socket c w o Hcell Hcl) as (ec & nc1 & HC & Hos & Hsent & _).
  eexists _, _. split; [exact HC|].
  set (o1 := TcpConn.mk (TcpConn.Endpoint o) nc1 true) in *.
  set (w1 := mkWorld _ _ _ _ _ _) in *.
  assert (Hc1 : cell c w1 = Some o1) by (apply (cell_assign_same w c o o1); exact Hcell).
  split; [|split].
  - unfold TcpConn.Receive, bind at 1, deref at 1. rewrite Hc1.
    cbn [TcpConn.read_loop TcpConn.Conn o1]. unfold NetConn.Read. rewrite Hos.
    cbn [app]. rewrite handleError_use_of_closed.
    unfold bind, assign. rewrite Hc1. reflexivity.
  - unfold TcpConn.Send. rewrite Hconv, Hmar.
    unfold bind, deref, time_Now, assign, ret. rewrite Hc1.
    unfold NetConn.Write, NetConn.SetWriteDeadline. cbn [NetConn.os_closed TcpConn.Conn o1].
    rewrite Hos, Hc1. cbn [fst]. rewrite handleError_use_of_closed. reflexivity.
  - unfold TcpConn.Send. rewrite Hconv, Hmar.
    unfold bind, deref, time_Now, assign, ret. rewrite Hc1.
    unfold NetConn.Write, NetConn.SetWriteDeadline. cbn [NetConn.os_closed TcpConn.Conn o1].
    rewrite Hos, Hc1. cbn [snd].
    eexists. split; [apply (cell_assign_same w1 c o1); exact Hc1|].
    cbn [TcpConn.Conn NetConn.sent]. exact Hsent.
Qed.

Lemma closed_connection_reports_ErrClosed_witness :
  exists ec w1,
    TcpConn.Close 1%nat (world_of [healthy_conn "10.0.0.1:2000"]) = (Ok ec, w1)
    /\ fst (@TcpConn.Receive sample_env 1%nat w1)
       = Ok (zero_ApplicationMessage, Some ErrClosed)
    /\ fst (@TcpConn.Send sample_env 1%nat (PMOther [Byte.x07]) w1) = Ok (Some ErrClosed)
    /\ exists o2, cell 1%nat (snd (@TcpConn.Send sample_env 1%nat (PMOther [Byte.x07]) w1))
                  = Some o2
                  /\ NetConn.sent (TcpConn.Conn o2) = [].
Proof.
  exact (@closed_connection_reports_ErrClosed sample_env 1%nat
           (world_of [healthy_conn "10.0.0.1:2000"]) (healthy_conn "10.0.0.1:2000")
           (PMOther [Byte.x07]) _ _ eq_refl eq_refl eq_refl eq_refl).
Defined.

(** ** Framing: what one [Receive] reads *)

(** The read loop goes through the reads that fill the buffer and stops at the
    first read that is short or reports an error. *)
Lemma read_loop_gathers (fulls : list bytes) :
  forall (nc : NetConn.t) (buffer : bytes) (fuel : nat) last err rest,
    NetConn.os_closed nc = false ->
    NetConn.reads nc = no_error fulls ++ (last, err) :: rest ->
    Forall (fun b => length b = TcpConn.bufferSize) fulls ->
    (err = None -> (length last < TcpConn.bufferSize)%nat) ->
    (length fulls < fuel)%nat ->
    TcpConn.read_loop fuel nc buffer
    = Some (buffer ++ concat fulls ++ take TcpConn.bufferSize last,
            handleError <$> err, set_reads nc rest).
Proof.
  induction fulls as [|b fulls IH]; intros nc buffer fuel last err rest Hos Hr Hfull Hlast Hfuel.
  - destruct fuel as [|fuel]; [cbn in Hfuel; lia|].
    cbn [TcpConn.read_loop]. unfold NetConn.Read, set_reads. rewrite Hos, Hr.
    cbn [no_error map app concat].
    destruct err as [e|]; [reflexivity|].
    specialize (Hlast eq_refl).
    assert (Hshort : (length (take TcpConn.bufferSize last) <? TcpConn.bufferSize)%nat = true).
    { apply Nat.ltb_lt. rewrite length_take. lia. }
    rewrite Hshort. reflexivity.
  - destruct fuel as [|fuel]; [cbn in Hfuel; lia|].
    inversion Hfull as [|? ? Hb Hfull']; subst.
    cbn [TcpConn.read_loop]. unfold NetConn.Read. rewrite Hos, Hr.
    cbn [no_error map app]. fold (no_error fulls).
    rewrite take_ge by lia.
    assert (Hlong : (length b <? TcpConn.bufferSize)%nat = false).
    { apply Nat.ltb_ge. lia. }
    rewrite Hlong.
    rewrite (IH _ (buffer ++ b) fuel last err rest); cbn [NetConn.os_closed NetConn.reads];
      try assumption; try reflexivity; [|cbn in Hfuel; lia].
    unfold set_reads. cbn [concat NetConn.writes NetConn.close_result NetConn.sent
                             NetConn.deadline NetConn.os_closed].
    rewrite Hos, <- !app_assoc. reflexivity.
Qed.

(** When the read script ends after reads that all filled the buffer, the
    next read reports the end of the stream. *)
Lemma read_loop_runs_out (fulls : list bytes) :
  forall (nc : NetConn.t) (buffer : bytes) (fuel : nat),
    NetConn.os_closed nc = false ->
    NetConn.reads nc = no_error fulls ->
    Forall (fun b => length b = TcpConn.bufferSize) fulls ->
    (length fulls < fuel)%nat ->
    TcpConn.read_loop fuel nc buffer
    = Some (buffer ++ concat fulls, Some ErrEOF, set_reads nc []).
Proof.
  induction fulls as [|b fulls IH]; intros nc buffer fuel Hos Hr Hfull Hfuel.
  - destruct fuel as [|fuel]; [cbn in Hfuel; lia|].
    cbn [TcpConn.read_loop]. unfold NetConn.Read, set_reads. rewrite Hos, Hr.
    cbn [no_error map concat]. rewrite app_nil_r.
    destruct nc; cbn in *. subst. reflexivity.
  - destruct fuel as [|fuel]; [cbn in Hfuel; lia|].
    inversion Hfull as [|? ? Hb Hfull']; subst.
    cbn [TcpConn.read_loop]. unfold NetConn.Read. rewrite Hos, Hr.
    cbn [no_error map]. fold (no_error fulls).
    rewrite take_ge by lia.
    assert (Hlong : (length b <? TcpConn.bufferSize)%nat = false).
    { apply Nat.ltb_ge. lia. }
    rewrite Hlong.
    rewrite (IH _ (buffer ++ b) fuel); cbn [NetConn.os_closed NetConn.reads];
      try assumption; try reflexivity; [|cbn in Hfuel; lia].
    unfold set_reads. cbn [concat NetConn.writes NetConn.close_result NetConn.sent
                             NetConn.deadline NetConn.os_closed].
    rewrite Hos, <- !app_assoc. reflexivity.
Qed.

Lemma with_reads_set_reads (o : TcpConn.t) rest :
  TcpConn.mk (TcpConn.Endpoint o) (set_reads (TcpConn.Conn o) rest) (TcpConn.closed o)
  = with_reads o rest.
Proof. reflexivity. Qed.

(** X5.  [Receive] frames a message by the size of the reads alone.  It puts
    together every read that fills the 4096-byte buffer and the first shorter
    read after them, decodes that as one message, stamps it with the remote
    address, and leaves the later reads in the connection.  So a message
    whose length is a multiple of 4096 is not delimited: the next read is
    appended to it. *)
Theorem Receive_gathers_until_short_read `{Env}
    (c : ptr) (w : W) (o : TcpConn.t) (fulls : list bytes) (last : bytes)
    (rest : list (bytes * option error)) (am1 : ApplicationMessage) :
  cell c w = Some o ->
  NetConn.os_closed (TcpConn.Conn o) = false ->
  NetConn.reads (TcpConn.Conn o) = no_error fulls ++ (last, None) :: rest ->
  Forall (fun b => length b = TcpConn.bufferSize) fulls ->
  (length last < TcpConn.bufferSize)%nat ->
  UnmarshalBinary zero_ApplicationMessage (concat fulls ++ last) = Returned am1 None ->
  exists w1,
    TcpConn.Receive c w
    = (Ok (mkAM (TcpConn.Endpoint o) (AM_Identity am1) (MsgType am1) (Msg am1), None), w1)
    /\ cell c w1 = Some (with_reads o rest)
    /\ trace w1 = trace w.
Proof.
  intros Hcell Hos Hr Hfull Hlast Hdec.
  unfold TcpConn.Receive, bind at 1, deref at 1. rewrite Hcell.
  rewrite (read_loop_gathers fulls (TcpConn.Conn o) [] _ last None rest Hos Hr Hfull
             (fun _ => Hlast))
    by (rewrite Hr; unfold no_error; rewrite length_app, length_map; cbn [length]; lia).
  rewrite take_ge by lia. cbn [fmap option_fmap option_map app].
  unfold bind at 1, assign at 1. rewrite Hcell, Hdec, with_reads_set_reads.
  unfold TcpConn.Remote, defer_recover, bind, deref, ret. cbv beta.
  rewrite (cell_assign_same w c o (with_reads o rest) _ _ _ _ _ Hcell).
  eexists. split; [reflexivity|]. split; [|reflexivity].
  apply (cell_assign_same w c o). exact Hcell.
Qed.

(** X6.  When a read reports an error, or the stream ends, [Receive] returns
    the empty message with the classified error ([ErrEOF] at the end of the
    stream) and nothing is decoded: the bytes of the full reads before it are
    neither returned nor left in the connection. *)
Theorem Receive_read_error_drops_what_was_read `{Env}
    (c : ptr) (w : W) (o : TcpConn.t) (fulls : list bytes) :
  cell c w = Some o ->
  NetConn.os_closed (TcpConn.Conn o) = false ->
  Forall (fun b => length b = TcpConn.bufferSize) fulls ->
  (forall data e rest,
     NetConn.reads (TcpConn.Conn o) = no_error fulls ++ (data, Some e) :: rest ->
     exists w1,
       TcpConn.Receive c w = (Ok (EmptyApplicationMessage, Some (handleError e)), w1)
       /\ cell c w1 = Some (with_reads o rest)
       /\ trace w1 = trace w)
  /\ (NetConn.reads (TcpConn.Conn o) = no_error fulls ->
      exists w1,
        TcpConn.Receive c w = (Ok (EmptyApplicationMessage, Some ErrEOF), w1)
        /\ cell c w1 = Some (with_reads o [])
        /\ trace w1 = trace w).
Proof.
  intros Hcell Hos Hfull. split.
  - intros data e rest Hr.
    unfold TcpConn.Receive, bind at 1, deref at 1. rewrite Hcell.
    rewrite (read_loop_gathers fulls (TcpConn.Conn o) [] _ data (Some e) rest Hos Hr Hfull)
      by first [ discriminate
               | rewrite Hr; unfold no_error; rewrite length_app, length_map;
                 cbn [length]; lia ].
    cbn [fmap option_fmap option_map].
    unfold bind, assign, ret. rewrite Hcell, with_reads_set_reads.
    eexists. split; [reflexivity|]. split; [|reflexivity].
    apply (cell_assign_same w c o). exact Hcell.
  - intros Hr.
    unfold TcpConn.Receive, bind at 1, deref at 1. rewrite Hcell.
    rewrite (read_loop_runs_out fulls (TcpConn.Conn o) [] _ Hos Hr Hfull)
      by (rewrite Hr; unfold no_error; rewrite length_map; lia).
    unfold bind, assign, ret. rewrite Hcell, with_reads_set_reads.
    eexists. split; [reflexivity|]. split; [|reflexivity].
    apply (cell_assign_same w c o). exact Hcell.
Qed.

Lemma Receive_gathers_until_short_read_witness :
  exists w1,
    @TcpConn.Receive sample_env 1%nat (world_of [glued_conn])
    = (Ok (mkAM "10.0.0.2:2000" zero_Identity 2%N
                (PMOther (repeat Byte.x00 4095 ++ [Byte.x01; Byte.x07])), None), w1)
    /\ cell 1%nat w1 = Some (with_reads glued_conn [([Byte.x01; Byte.x09], None)])
    /\ trace w1 = [].
Proof.
  apply (@Receive_gathers_until_short_read sample_env 1%nat (world_of [glued_conn])
           glued_conn [full_raw] [Byte.x01; Byte.x07] [([Byte.x01; Byte.x09], None)]
           (mkAM "" zero_Identity 2%N
                 (PMOther (repeat Byte.x00 4095 ++ [Byte.x01; Byte.x07])))).
  - reflexivity.
  - reflexivity.
  - reflexivity.
  - constructor; [vm_compute; reflexivity | constructor].
  - unfold TcpConn.bufferSize. cbn [length]. lia.
  - vm_compute. reflexivity.
Defined.

Lemma Receive_read_error_witness :
  exists w1,
    @TcpConn.Receive sample_env 1%nat (world_of [healthy_conn "10.0.0.1:2000"])
    = (Ok (zero_ApplicationMessage, Some ErrEOF), w1)
    /\ cell 1%nat w1 = Some (with_reads (healthy_conn "10.0.0.1:2000") [])
    /\ trace w1 = [].
Proof.
  exact (proj2 (@Receive_read_error_drops_what_was_read sample_env 1%nat
                  (world_of [healthy_conn "10.0.0.1:2000"])
                  (healthy_conn "10.0.0.1:2000") [] eq_refl eq_refl
                  (List.Forall_nil _))
               eq_refl).
Defined.

(** ** Opening connections *)

Lemma map_get_set_same (m : list (string * ptr)) k v :
  map_get (TcpHost.map_set m k v) k = Some v.
Proof.
  induction m as [|[k' v'] m IH]; cbn [TcpHost.map_set map_get].
  - rewrite String.eqb_refl. reflexivity.
  - destruct (String.eqb k' k) eqn:E; cbn [map_get].
    + rewrite String.eqb_refl. reflexivity.
    + rewrite E. exact IH.
Qed.

Lemma map_get_set_other (m : list (string * ptr)) k v k' :
  k' <> k -> map_get (TcpHost.map_set m k v) k' = map_get m k'.
Proof.
  intros Hne. induction m as [|[k0 v0] m IH]; cbn [TcpHost.map_set map_get].
  - destruct (String.eqb k k') eqn:E; [|reflexivity].
    apply String.eqb_eq in E. congruence.
  - destruct (String.eqb k0 k) eqn:E; cbn [map_get].
    + apply String.eqb_eq in E. subst k0.
      destruct (String.eqb k k') eqn:E'; [|reflexivity].
      apply String.eqb_eq in E'. congruence.
    + destruct (String.eqb k0 k'); [reflexivity | exact IH].
Qed.

Lemma map_set_keys_NoDup (m : list (string * ptr)) k v :
  List.NoDup (map fst m) -> List.NoDup (map fst (TcpHost.map_set m k v)).
Proof.
  induction m as [|[k0 v0] m IH]; intros Hnd; cbn [TcpHost.map_set map fst].
  - constructor; [intros [] | constructor].
  - inversion Hnd as [|? ? Hnotin Hnd']; subst.
    destruct (String.eqb k0 k) eqn:E; cbn [map fst].
    + apply String.eqb_eq in E. subst k0. constructor; assumption.
    + constructor; [|apply IH; exact Hnd'].
      intros Hin. apply Hnotin. clear IH Hnd Hnd' Hnotin.
      induction m as [|[k1 v1] m IHm]; cbn [TcpHost.map_set map fst] in *.
      * destruct Hin as [<-|[]]. rewrite String.eqb_refl in E. discriminate.
      * destruct (String.eqb k1 k) eqn:E1; cbn [map fst In] in *.
        -- destruct Hin as [<-|Hin]; [rewrite String.eqb_refl in E; discriminate|].
           right. exact Hin.
        -- destruct Hin as [Hin|Hin]; [left; exact Hin | right; apply IHm; exact Hin].
Qed.

Lemma map_set_twice (m : list (string * ptr)) k v1 v2 :
  TcpHost.map_set (TcpHost.map_set m k v1) k v2 = TcpHost.map_set m k v2.
Proof.
  induction m as [|[k0 v0] m IH]; cbn [TcpHost.map_set].
  - rewrite String.eqb_refl. reflexivity.
  - destruct (String.eqb k0 k) eqn:E; cbn [TcpHost.map_set].
    + rewrite String.eqb_refl. reflexivity.
    + rewrite E, IH. reflexivity.
Qed.

Lemma map_set_values (m : list (string * ptr)) k v p :
  In p (map_values (TcpHost.map_set m k v)) -> p = v \/ In p (map_values m).
Proof.
  unfold map_values.
  induction m as [|[k0 v0] m IH]; cbn [TcpHost.map_set map snd In].
  - intros [<-|[]]. left. reflexivity.
  - destruct (String.eqb k0 k); cbn [map snd In].
    + intros [<-|Hin]; [left; reflexivity | right; right; exact Hin].
    + intros [<-|Hin]; [right; left; reflexivity|].
      destruct (IH Hin) as [->|H]; [left; reflexivity | right; right; exact H].
Qed.

(** The dial loop never touches the heap, and ends either without a
    connection or with a connection and a nil error. *)
Lemma dial_loop_shape (n : nat) : forall (name : string) err (w w1 : W) r,
  TcpHost.dial_loop n name None err w = (r, w1) ->
  heap w1 = heap w
  /\ ((exists err', r = Ok (None, err')) \/ (exists nc, r = Ok (Some nc, None))).
Proof.
  induction n as [|n IH]; intros name err w w1 r Hrun.
  - cbn in Hrun. injection Hrun as <- <-. split; [reflexivity|]. left. eauto.
  - cbn [TcpHost.dial_loop] in Hrun. unfold bind at 1, net_Dial at 1 in Hrun.
    destruct (dialer w (dials w) name) as [nc|e].
    + unfold ret in Hrun. injection Hrun as <- <-. split; [reflexivity|]. right. eauto.
    + unfold bind at 1, time_Sleep at 1 in Hrun.
      unfold bind at 1, time_Sleep at 1 in Hrun.
      apply IH in Hrun. cbn [heap] in Hrun. exact Hrun.
Qed.

(** [openTcpConn] returns a nil connection exactly when it returns an error;
    otherwise the connection is a new heap cell, open, named after the
    address. *)
Lemma openTcpConn_shape (name : string) (w w1 : W) r :
  TcpHost.openTcpConn name w = (r, w1) ->
  (exists e, r = Ok (nil, Some e) /\ heap w1 = heap w)
  \/ (exists nc, r = Ok (S (length (heap w)), None)
                 /\ heap w1 = heap w ++ [TcpConn.mk name nc false]).
Proof.
  unfold TcpHost.openTcpConn, bind at 1. intros Hrun.
  destruct (TcpHost.dial_loop maxRetry name None None w) as [rd wd] eqn:Ed.
  destruct (dial_loop_shape _ _ _ _ _ _ Ed) as [Hheap [[err' ->]|[nc ->]]].
  - unfold ret in Hrun. injection Hrun as <- <-. left. eauto.
  - unfold bind, alloc, ret in Hrun. injection Hrun as <- <-. right.
    exists nc. cbn [heap]. rewrite Hheap. split; reflexivity.
Qed.

(** X7.  [TcpHost.Open] returns a nil connection exactly when it returns an
    error, and then leaves the host and the heap as they were.  When it
    succeeds the connection is a new open [TcpConn] named after the address;
    it is tracked under that address, in place of whatever was tracked there,
    and the connections tracked under other addresses stay. *)
Theorem TcpHost_Open_tracks_or_fails (h : TcpHost.t) (name : string) (w w1 : W) r :
  TcpHost.Open h name w = (r, w1) ->
  (exists e, r = Ok (h, nil, Some e) /\ heap w1 = heap w)
  \/ (exists nc h1,
        r = Ok (h1, S (length (heap w)), None)
        /\ cell (S (length (heap w))) w1 = Some (TcpConn.mk name nc false)
        /\ map_get (TcpHost.peers h1) name = Some (S (length (heap w)))
        /\ (forall k, k <> name ->
              map_get (TcpHost.peers h1) k = map_get (TcpHost.peers h) k)
        /\ (List.NoDup (map fst (TcpHost.peers h)) ->
            List.NoDup (map fst (TcpHost.peers h1)))
        /\ TcpHost.closed h1 = TcpHost.closed h
        /\ TcpHost.quit h1 = TcpHost.quit h
        /\ TcpHost.listener h1 = TcpHost.listener h).
Proof.
  unfold TcpHost.Open, bind at 1. intros Hrun.
  destruct (TcpHost.openTcpConn name w) as [ro wo] eqn:Eo.
  destruct (openTcpConn_shape _ _ _ _ Eo) as [(e & -> & Hheap)|(nc & -> & Hheap)];
    unfold ret in Hrun; injection Hrun as <- <-.
  - left. eauto.
  - right. exists nc. eexists. split; [reflexivity|].
    cbn [TcpHost.peers TcpHost.closed TcpHost.quit TcpHost.listener].
    repeat split.
    + unfold cell. rewrite Hheap. apply list_lookup_middle. reflexivity.
    + apply map_get_set_same.
    + intros k Hk. apply map_get_set_other. exact Hk.
    + apply map_set_keys_NoDup.
Qed.

Lemma TcpHost_Open_tracks_witness :
  let w := peer_identifying Byte.x07 in
  let run := TcpHost.Open TcpHost.NewTcpHost "10.0.0.2:2000" w in
  (exists e, fst run = Ok (TcpHost.NewTcpHost, nil, Some e) /\ heap (snd run) = heap w)
  \/ (exists nc h1,
        fst run = Ok (h1, 1%nat, None)
        /\ cell 1%nat (snd run) = Some (TcpConn.mk "10.0.0.2:2000" nc false)
        /\ map_get (TcpHost.peers h1) "10.0.0.2:2000" = Some 1%nat
        /\ (forall k, k <> "10.0.0.2:2000" -> map_get (TcpHost.peers h1) k = None)
        /\ (List.NoDup (@Datatypes.nil string) -> List.NoDup (map fst (TcpHost.peers h1)))
        /\ TcpHost.closed h1 = false
        /\ TcpHost.quit h1 = chan_open
        /\ TcpHost.listener h1 = None).
Proof.
  exact (TcpHost_Open_tracks_or_fails TcpHost.NewTcpHost "10.0.0.2:2000"
           (peer_identifying Byte.x07) _ _ (surjective_pairing _)).
Defined.

(** X8.  Refused [k] times and then accepted, with [k] below [maxRetry], the
    address is connected at attempt [k + 1]: [openTcpConn] returns a new open
    connection and a nil error after exactly [k + 1] dial attempts, having
    slept [2 * k] times [waitRetry]. *)
Theorem openTcpConn_retries_until_accepted
    (name : string) (w : W) (k : nat) (nc : NetConn.t) :
  (forall j, (j < k)%nat -> exists e, dialer w (dials w + j) name = inr e) ->
  dialer w (dials w + k) name = inl nc ->
  (k < maxRetry)%nat ->
  TcpHost.openTcpConn name w
  = (Ok (S (length (heap w)), None),
     mkWorld (heap w ++ [TcpConn.mk name nc false])
             (clock w + 2 * Z.of_nat k * waitRetry) (dialer w)
             (S (dials w + k)) (binder w)
             (trace w ++ refused_trace name k ++ [EvDial name true])).
Proof.
  intros Hfail Hacc Hk. unfold TcpHost.openTcpConn, bind at 1.
  rewrite (dial_loop_accepted_after k maxRetry name None None w nc Hfail Hacc Hk).
  reflexivity.
Qed.

Lemma openTcpConn_retries_witness :
  exists w1,
    TcpHost.openTcpConn "10.0.0.1:2000" (world_dialing accepted_at_fourth)
    = (Ok (1%nat, None), w1)
    /\ clock w1 = 6 * Second
    /\ length (dial_attempts (trace w1)) = 4%nat.
Proof.
  eexists. split.
  - apply (openTcpConn_retries_until_accepted "10.0.0.1:2000"
             (world_dialing accepted_at_fourth) 3 (peer_sending [] None)).
    + intros j Hj. exists connection_refused.
      destruct j as [|[|[|j]]]; [reflexivity ..|lia].
    + reflexivity.
    + unfold maxRetry. lia.
  - split; reflexivity.
Defined.

(** ** Connections the host does not track *)

Lemma keeps_flags_same (w w1 : W) : heap w1 = heap w -> keeps_flags w w1.
Proof.
  intros Hh p o Hp. exists o. split; [|reflexivity].
  unfold cell in *. rewrite Hh. exact Hp.
Qed.

Lemma keeps_flags_trans (w w1 w2 : W) :
  keeps_flags w w1 -> keeps_flags w1 w2 -> keeps_flags w w2.
Proof.
  intros H1 H2 p o Hp. destruct (H1 p o Hp) as (o1 & Hp1 & Hc1).
  destruct (H2 p o1 Hp1) as (o2 & Hp2 & Hc2). exists o2. split; [exact Hp2 | congruence].
Qed.

Lemma keeps_flags_assign (w w1 : W) (c : ptr) (oc o' : TcpConn.t) :
  heap w1 = <[pred c:=o']> (heap w) ->
  cell c w = Some oc ->
  TcpConn.closed o' = TcpConn.closed oc ->
  keeps_flags w w1.
Proof.
  intros Hh Hc Hcl p o Hp. unfold cell in *.
  destruct c as [|j]; [discriminate|]. destruct p as [|i]; [discriminate|].
  rewrite Hh. cbn [pred]. destruct (Nat.eq_dec i j) as [->|Hne].
  - exists o'. split; [|congruence].
    apply list_lookup_insert_eq. apply lookup_lt_Some in Hc. exact Hc.
  - exists o. split; [|reflexivity]. rewrite list_lookup_insert_ne by congruence. exact Hp.
Qed.

Ltac flags :=
  first [ apply keeps_flags_same; reflexivity
        | eapply keeps_flags_assign; [reflexivity | eassumption | reflexivity] ].

Section Flags.
Context `{Env}.

Lemma Send_keeps_flags c obj (w w1 : W) r :
  TcpConn.Send c obj w = (r, w1) -> keeps_flags w w1.
Proof.
  unfold TcpConn.Send, bind, deref, assign, time_Now, ret. intros Hs.
  repeat case_match; simplify_eq; flags.
Qed.

Lemma Receive_keeps_flags c (w w1 : W) r :
  TcpConn.Receive c w = (r, w1) -> keeps_flags w w1.
Proof.
  unfold TcpConn.Receive, TcpConn.Remote, defer_recover, bind, deref, assign,
    ret, panic, emit.
  intros Hr.
  repeat case_match; simplify_eq; flags.
Qed.

Lemma negotiateOpen_keeps_flags sc id (w w1 : W) r :
  SecureTcpConn.negotiateOpen sc id w = (r, w1) ->
  keeps_flags w w1
  /\ (forall sc1 err, r = Ok (sc1, err) ->
        SecureTcpConn.tcpConn sc1 = SecureTcpConn.tcpConn sc).
Proof.
  unfold SecureTcpConn.negotiateOpen, SecureTcpConn.negotiateListen, bind. intros Hn.
  destruct (TcpConn.Send _ _ w) as [rs ws] eqn:Es.
  apply Send_keeps_flags in Es.
  destruct rs as [[e|]|v]; unfold ret, panic in Hn.
  - simplify_eq. split; [exact Es|]. intros sc1 err [= <- <-]. reflexivity.
  - destruct (TcpConn.Receive _ ws) as [rr wr] eqn:Er.
    apply Receive_keeps_flags in Er.
    assert (Hk : keeps_flags w wr) by (eapply keeps_flags_trans; eassumption).
    repeat case_match; simplify_eq; (split; [exact Hk|]);
      intros sc1 err' Heq; simplify_eq; reflexivity.
  - simplify_eq. split; [exact Es|]. intros sc1 err [=].
Qed.
End Flags.

(** The loop of [Open] returns a connection that is a new heap cell, open,
    and leaves the cells that were there. *)
Lemma open_loop_fresh (l : list string) : forall (w w1 : W) c,
  SecureTcpHost.open_loop l w = (Ok (Some c), w1) ->
  c = S (length (heap w))
  /\ keeps_flags w w1
  /\ exists o, cell c w1 = Some o /\ TcpConn.closed o = false.
Proof.
  induction l as [|addr l IH]; intros w w1 c Hrun; [discriminate|].
  cbn [SecureTcpHost.open_loop] in Hrun. unfold bind at 1 in Hrun.
  destruct (TcpHost.openTcpConn addr w) as [ro wo] eqn:Eo.
  destruct (openTcpConn_shape _ _ _ _ Eo) as [(e & -> & Hheap)|(nc & -> & Hheap)].
  - destruct (IH wo w1 c Hrun) as (Hc & Hk & Ho). rewrite Hheap in Hc.
    split; [exact Hc|]. split; [|exact Ho].
    eapply keeps_flags_trans; [|exact Hk]. apply keeps_flags_same. exact Hheap.
  - unfold ret in Hrun. injection Hrun as <- <-. split; [reflexivity|]. split.
    + intros p o Hp. exists o. split; [|reflexivity].
      unfold cell in *. destruct p as [|i]; [discriminate|]. rewrite Hheap.
      apply lookup_app_l_Some. exact Hp.
    + exists (TcpConn.mk addr nc false). split; [|reflexivity]. unfold cell.
      rewrite Hheap. apply list_lookup_middle. reflexivity.
Qed.

(** X9.  The secure [Open] does not put the connection it returns into the
    connection map of the host.  So when the host is closed afterwards, that
    connection is not closed: it is still an open cell of the heap. *)
Theorem SecureTcpHost_Open_connection_survives_Close `{Env}
    (st : SecureTcpHost.t) (id : Identity.t) (w w1 w2 : W)
    (sc : SecureTcpConn.t) (err : option error) r :
  (forall p, In p (map_values (TcpHost.peers (SecureTcpHost.tcpHost st))) ->
     (p <= length (heap w))%nat) ->
  SecureTcpHost.Open st id w = (Ok (Some sc, err), w1) ->
  SecureTcpHost.Close st w1 = (r, w2) ->
  exists o, cell (SecureTcpConn.tcpConn sc) w2 = Some o /\ TcpConn.closed o = false.
Proof.
  intros Hvalid Hopen Hclose.
  unfold SecureTcpHost.Open, bind at 1 in Hopen.
  destruct (SecureTcpHost.open_loop (Identity.Addresses id) w) as [[[c|]|v] wl] eqn:El;
    [| unfold ret in Hopen; discriminate | discriminate].
  destruct (open_loop_fresh _ _ _ _ El) as (Hc & _ & o & Ho & Hcl).
  unfold bind at 1 in Hopen.
  destruct (SecureTcpConn.negotiateOpen _ id wl) as [rn wn] eqn:En.
  destruct (negotiateOpen_keeps_flags _ _ _ _ _ En) as [Hk Hptr].
  destruct rn as [[sc1 e1]|v]; [|discriminate].
  unfold ret in Hopen. injection Hopen as <- <- <-.
  rewrite (Hptr sc1 e1 eq_refl). cbn [SecureTcpConn.tcpConn].
  destruct (Hk c o Ho) as (o1 & Ho1 & Hcl1).
  assert (Hw2 : cell c w2 = cell c wn).
  { unfold SecureTcpHost.Close, bind in Hclose.
    destruct (TcpHost.Close (SecureTcpHost.tcpHost st) wn) as [rc wc] eqn:Ec.
    destruct (TcpHost_Close_frame _ _ _ _ Ec) as (_ & _ & Hframe).
    assert (w2 = wc) as ->.
    { unfold ret in Hclose. repeat case_match; simplify_eq; reflexivity. }
    apply Hframe. intros Hin. apply Hvalid in Hin. lia. }
  exists o1. rewrite Hw2. split; [exact Ho1 | congruence].
Qed.

Lemma SecureTcpHost_Open_connection_survives_Close_witness :
  let run := @SecureTcpHost.Open sample_env sample_host dialed (peer_identifying Byte.x07) in
  exists sc err,
    fst run = Ok (Some sc, err)
    /\ exists o, cell (SecureTcpConn.tcpConn sc)
                      (snd (SecureTcpHost.Close sample_host (snd run))) = Some o
                 /\ TcpConn.closed o = false.
Proof.
  intros run.
  assert (Hrun : run = (Ok (Some (SecureTcpConn.mk 1%nat (sample_Identity 5%N)
                                                   (sample_Identity 7%N)), None),
                        snd run)).
  { vm_compute. reflexivity. }
  eexists _, _. split; [rewrite Hrun; reflexivity|].
  apply (@SecureTcpHost_Open_connection_survives_Close sample_env sample_host dialed
           (peer_identifying Byte.x07) (snd run) _ _ None
           (fst (SecureTcpHost.Close sample_host (snd run)))).
  - intros p [].
  - exact Hrun.
  - apply surjective_pairing.
Defined.

(** X10.  Opening the same address twice replaces the tracked connection:
    after the second [Open] the map holds the second connection under that
    address and the first one nowhere, so that a later [Close] of the host
    leaves the first connection open. *)
Theorem reopening_untracks_first_connection
    (h : TcpHost.t) (name : string) (w : W) (nc1 nc2 : NetConn.t) :
  (forall p, In p (map_values (TcpHost.peers h)) -> (p <= length (heap w))%nat) ->
  dialer w (dials w) name = inl nc1 ->
  dialer w (S (dials w)) name = inl nc2 ->
  let c1 := S (length (heap w)) in
  let c2 := S (S (length (heap w))) in
  exists h1 w1 h2 w2,
    TcpHost.Open h name w = (Ok (h1, c1, None), w1)
    /\ TcpHost.Open h1 name w1 = (Ok (h2, c2, None), w2)
    /\ TcpHost.peers h2 = TcpHost.map_set (TcpHost.peers h) name c2
    /\ ~ In c1 (map_values (TcpHost.peers h2))
    /\ forall r w3, TcpHost.Close h2 w2 = (r, w3) ->
         cell c1 w3 = Some (TcpConn.mk name nc1 false).
Proof.
  intros Hvalid Hd1 Hd2 c1 c2.
  eexists _, _, _, _. split; [|split; [|split; [|split]]].
  - unfold TcpHost.Open, bind at 1. rewrite (openTcpConn_accepted name w nc1 Hd1).
    reflexivity.
  - unfold TcpHost.Open, bind at 1.
    rewrite (openTcpConn_accepted name (connected w name nc1) nc2) by exact Hd2.
    cbn [heap connected]. rewrite length_app. cbn [length].
    replace (S (length (heap w) + 1)) with c2 by (unfold c2; lia). reflexivity.
  - cbn [TcpHost.peers]. apply map_set_twice.
  - cbn [TcpHost.peers]. rewrite map_set_twice. intros Hin.
    apply map_set_values in Hin. destruct Hin as [Hin|Hin].
    + unfold c1, c2 in Hin. lia.
    + apply Hvalid in Hin. unfold c1 in Hin. lia.
  - intros r w3 Hclose.
    destruct (TcpHost_Close_frame _ _ _ _ Hclose) as (_ & _ & Hframe).
    rewrite Hframe.
    + unfold cell, c1. cbn [heap connected]. rewrite <- app_assoc. cbn [app].
      apply list_lookup_middle. reflexivity.
    + cbn [TcpHost.peers]. rewrite map_set_twice. intros Hin.
      apply map_set_values in Hin. destruct Hin as [Hin|Hin].
      * unfold c1, c2 in Hin. lia.
      * apply Hvalid in Hin. unfold c1 in Hin. lia.
Qed.

Lemma reopening_untracks_first_connection_witness :
  let w := peer_identifying Byte.x07 in
  let nc := peer_sending [[Byte.x01; Byte.x07]] None in
  exists h1 w1 h2 w2,
    TcpHost.Open TcpHost.NewTcpHost "10.0.0.2:2000" w = (Ok (h1, 1%nat, None), w1)
    /\ TcpHost.Open h1 "10.0.0.2:2000" w1 = (Ok (h2, 2%nat, None), w2)
    /\ TcpHost.peers h2 = [("10.0.0.2:2000", 2%nat)]
    /\ ~ In 1%nat (map_values (TcpHost.peers h2))
    /\ forall r w3, TcpHost.Close h2 w2 = (r, w3) ->
         cell 1%nat w3 = Some (TcpConn.mk "10.0.0.2:2000" nc false).
Proof.
  intros w nc.
  apply (reopening_untracks_first_connection TcpHost.NewTcpHost "10.0.0.2:2000" w nc nc).
  - intros p [].
  - reflexivity.
  - reflexivity.
Defined.

(** ** Listening *)

Lemma handlers_S base n :
  handlers base (S n) = EvGo (S base) None :: handlers (S base) n.
Proof.
  unfold handlers. cbn [seq map]. rewrite Nat.add_0_r. f_equal.
  rewrite <- seq_shift, map_map. apply map_ext. intros i. do 2 f_equal. lia.
Qed.

(** While the quit channel is open the accept loop goes through the whole
    script: failed accepts are skipped, every accepted connection gets a heap
    cell, is tracked under its remote address and is handed to a handler
    goroutine. *)
Lemma accept_loop_quit_open (script : list (NetConn.t * string + error)) :
  forall (h : TcpHost.t) (w : W),
    TcpHost.quit h = chan_open ->
    exists h1 w1,
      TcpHost.accept_loop script h (fun tc => emit (EvGo tc None)) w = (Ok (h1, Blocks), w1)
      /\ heap w1 = heap w ++ accepted_conns (accepted script)
      /\ trace w1 = trace w ++ handlers (length (heap w)) (length (accepted script))
      /\ TcpHost.peers h1 = track_all (TcpHost.peers h) (length (heap w)) (accepted script)
      /\ TcpHost.listener h1 = TcpHost.listener h
      /\ TcpHost.quit h1 = chan_open
      /\ TcpHost.closed h1 = TcpHost.closed h.
Proof.
  induction script as [|[[conn remote]|e] script IH]; intros h w Hq.
  - exists h, w. cbn. rewrite !app_nil_r. repeat split. exact Hq.
  - cbn [TcpHost.accept_loop]. unfold bind at 1, alloc at 1.
    unfold bind at 1, emit at 1. cbn [heap clock dialer dials binder trace].
    match goal with
    | |- context [TcpHost.accept_loop script ?h' _ ?w'] =>
        destruct (IH h' w' Hq) as (h1 & w1 & Hrun & Hheap & Htrace & Hpeers & Hl & Hq1 & Hc)
    end.
    exists h1, w1. cbn [heap trace TcpHost.peers TcpHost.listener TcpHost.closed] in *.
    split; [exact Hrun|].
    change (accepted (inl (conn, remote) :: script)) with ((conn, remote) :: accepted script).
    cbn [accepted_conns map length fst snd track_all].
    fold (accepted_conns (accepted script)).
    rewrite length_app in Htrace, Hpeers. cbn [length] in Htrace, Hpeers.
    replace (length (heap w) + 1)%nat with (S (length (heap w))) in * by lia.
    rewrite handlers_S. repeat split; try assumption.
    + rewrite Hheap, <- app_assoc. reflexivity.
    + rewrite Htrace, <- app_assoc. reflexivity.
  - cbn [TcpHost.accept_loop]. rewrite Hq.
    change (accepted (inr e :: script)) with (accepted script). apply IH. exact Hq.
Qed.

(** An accept loop that returns returns nil. *)
Lemma accept_loop_returns_nil (script : list (NetConn.t * string + error)) :
  forall (h h1 : TcpHost.t) (fn : ptr -> Go unit) (w w1 : W) e,
    TcpHost.accept_loop script h fn w = (Ok (h1, Returns e), w1) -> e = None.
Proof.
  induction script as [|[[conn remote]|e0] script IH]; intros h h1 fn w w1 e Hrun.
  - cbn in Hrun. discriminate.
  - cbn [TcpHost.accept_loop] in Hrun. unfold bind at 1, alloc at 1 in Hrun.
    unfold bind at 1 in Hrun.
    match type of Hrun with
    | context [fn ?c ?w'] => destruct (fn c w') as [[[]|v] wf]
    end; [|discriminate].
    eapply IH. exact Hrun.
  - cbn [TcpHost.accept_loop] in Hrun. destruct (TcpHost.quit h).
    + eapply IH. exact Hrun.
    + unfold ret in Hrun. congruence.
Qed.

(** X11.  [TcpHost.Listen].  When the address cannot be bound, [Listen]
    returns an error naming the address and starts nothing.  When it is bound
    and the quit channel is open, [Listen] does not return: it skips the
    failed accepts, and for every accepted connection, in accept order, it
    makes a new open [TcpConn], tracks it under its remote address and starts
    one handler goroutine on it. *)
Theorem TcpHost_Listen_one_handler_per_accept `{Env}
    (h : TcpHost.t) (addr : string) (w : W) :
  TcpHost.quit h = chan_open ->
  match binder w (GlobalBind addr) with
  | inr _ =>
      TcpHost.Listen h addr w
      = (Ok (h, Returns (Some (errorString
               ("Error opening listener on address " ++ addr)%string))), w)
  | inl ln =>
      exists h1 w1,
        TcpHost.Listen h addr w = (Ok (h1, Blocks), w1)
        /\ heap w1 = heap w ++ accepted_conns (accepted (Listener.accepts ln))
        /\ trace w1
           = trace w ++ handlers (length (heap w)) (length (accepted (Listener.accepts ln)))
        /\ TcpHost.peers h1
           = track_all (TcpHost.peers h) (length (heap w)) (accepted (Listener.accepts ln))
        /\ TcpHost.listener h1 = Some ln
  end.
Proof.
  intros Hq. unfold TcpHost.Listen, TcpHost.listen, bind, net_Listen.
  destruct (binder w (GlobalBind addr)) as [ln|e]; [|reflexivity].
  destruct (accept_loop_quit_open (Listener.accepts ln)
              (TcpHost.mk (TcpHost.peers h) (Some ln) (TcpHost.quit h) (TcpHost.closed h))
              w Hq)
    as (h1 & w1 & Hrun & Hheap & Htrace & Hpeers & Hl & _).
  exists h1, w1. repeat split; assumption.
Qed.

Lemma TcpHost_Listen_witness :
  exists h1 w1,
    @TcpHost.Listen sample_env TcpHost.NewTcpHost "10.0.0.1:2000" (world_listening three_accepts)
    = (Ok (h1, Blocks), w1)
    /\ heap w1 = [healthy_conn "10.0.0.9:4000"; healthy_conn "10.0.0.8:4000"]
    /\ trace w1 = [EvGo 1%nat None; EvGo 2%nat None]
    /\ TcpHost.peers h1 = [("10.0.0.9:4000", 1%nat); ("10.0.0.8:4000", 2%nat)]
    /\ TcpHost.listener h1 = Some three_accepts.
Proof.
  exact (@TcpHost_Listen_one_handler_per_accept sample_env TcpHost.NewTcpHost
           "10.0.0.1:2000" (world_listening three_accepts) eq_refl).
Defined.

(** With a fixed handler, a script that starts with accepted connections
    handles them all and goes on with the rest of the script. *)
Lemma accept_loop_prefix (accs : list (NetConn.t * string)) :
  forall (tail : list (NetConn.t * string + error)) (h : TcpHost.t) (w : W),
    TcpHost.accept_loop (map inl accs ++ tail) h (fun tc => emit (EvGo tc None)) w
    = TcpHost.accept_loop tail
        (TcpHost.mk (track_all (TcpHost.peers h) (length (heap w)) accs)
                    (TcpHost.listener h) (TcpHost.quit h) (TcpHost.closed h))
        (fun tc => emit (EvGo tc None))
        (mkWorld (heap w ++ accepted_conns accs) (clock w) (dialer w) (dials w) (binder w)
                 (trace w ++ handlers (length (heap w)) (length accs))).
Proof.
  induction accs as [|[conn remote] accs IH]; intros tail h w.
  - cbn [map app track_all accepted_conns length handlers seq]. rewrite !app_nil_r.
    destruct h, w. reflexivity.
  - cbn [map app TcpHost.accept_loop]. unfold bind at 1, alloc at 1.
    unfold bind at 1, emit at 1. cbn [heap clock dialer dials binder trace].
    rewrite IH. cbn [heap clock dialer dials binder trace TcpHost.peers
                       TcpHost.listener TcpHost.quit TcpHost.closed].
    cbn [accepted_conns map length fst snd track_all].
    fold (accepted_conns accs). rewrite handlers_S, length_app. cbn [length].
    replace (length (heap w) + 1)%nat with (S (length (heap w))) by lia.
    rewrite <- !app_assoc. reflexivity.
Qed.

(** X12.  [Listen] never looks at the closed flag.  On a host whose quit
    channel is already closed (the host was closed before), [Listen] still
    binds the address and serves the connections that are accepted, each with
    its handler, until the first accept that fails; only then does it return,
    with nil, leaving the rest of the accepts alone. *)
Theorem TcpHost_Listen_after_Close_serves_until_accept_fails `{Env}
    (h : TcpHost.t) (addr : string) (w : W) (ln : Listener.t)
    (accs : list (NetConn.t * string)) (e : error)
    (rest : list (NetConn.t * string + error)) :
  TcpHost.quit h = chan_closed ->
  binder w (GlobalBind addr) = inl ln ->
  Listener.accepts ln = map inl accs ++ inr e :: rest ->
  exists h1 w1,
    TcpHost.Listen h addr w = (Ok (h1, Returns None), w1)
    /\ heap w1 = heap w ++ accepted_conns accs
    /\ trace w1 = trace w ++ handlers (length (heap w)) (length accs)
    /\ TcpHost.peers h1 = track_all (TcpHost.peers h) (length (heap w)) accs
    /\ TcpHost.closed h1 = TcpHost.closed h.
Proof.
  intros Hq Hb Hs. unfold TcpHost.Listen, TcpHost.listen, bind, net_Listen.
  rewrite Hb, Hs, accept_loop_prefix.
  cbn [TcpHost.accept_loop TcpHost.quit TcpHost.peers TcpHost.listener TcpHost.closed].
  rewrite Hq. unfold ret. eexists _, _. split; [reflexivity|]. repeat split.
Qed.

Lemma TcpHost_Listen_after_Close_witness :
  exists h1 w1,
    @TcpHost.Listen sample_env (TcpHost.mk [] None chan_closed true) "10.0.0.1:2000"
                    (world_listening three_accepts)
    = (Ok (h1, Returns None), w1)
    /\ heap w1 = [healthy_conn "10.0.0.9:4000"]
    /\ trace w1 = [EvGo 1%nat None]
    /\ TcpHost.peers h1 = [("10.0.0.9:4000", 1%nat)]
    /\ TcpHost.closed h1 = true.
Proof.
  exact (@TcpHost_Listen_after_Close_serves_until_accept_fails sample_env
           (TcpHost.mk [] None chan_closed true) "10.0.0.1:2000"
           (world_listening three_accepts) three_accepts
           [(peer_sending [] None, "10.0.0.9:4000")] accept_failure
           [inl (peer_sending [] None, "10.0.0.8:4000")] eq_refl eq_refl eq_refl).
Defined.

Section SecureListen.
Context `{Env}.

Lemma listen_returns (h h1 : TcpHost.t) (addr : string) (fn : ptr -> Go unit)
    (w w1 : W) (e : error) :
  TcpHost.listen h addr fn w = (Ok (h1, Returns (Some e)), w1) ->
  e = errorString ("Error opening listener on address " ++ addr)%string.
Proof.
  unfold TcpHost.listen, bind, net_Listen. intros Hl.
  destruct (binder w (GlobalBind addr)) as [ln|e0].
  - apply accept_loop_returns_nil in Hl. discriminate.
  - unfold ret in Hl. congruence.
Qed.

Lemma listen_loop_never_nil (addrs : list string) :
  forall (st st1 : SecureTcpHost.t) (w w1 : W) e,
    SecureTcpHost.listen_loop addrs st w = (Ok (st1, Returns e), w1) ->
    e = Some (errorString "No address worked for listening on this host").
Proof.
  induction addrs as [|addr addrs IH]; intros st st1 w w1 e Hrun.
  - cbn in Hrun. unfold ret in Hrun. congruence.
  - cbn [SecureTcpHost.listen_loop] in Hrun. unfold bind at 1 in Hrun.
    cbn [SecureTcpHost.tcpHost SecureTcpHost.HostIdentity SecureTcpHost.IdToAddr
         SecureTcpHost.workingAddress] in Hrun.
    match type of Hrun with
    | context [TcpHost.listen ?h0 addr ?fn w] =>
        destruct (TcpHost.listen h0 addr fn w) as [[[h' [[err|]|]]|v] wl] eqn:El
    end; try discriminate.
    + apply listen_returns in El. subst err.
      cbn [bool_decide decide_rel] in Hrun.
      rewrite !bool_decide_eq_false_2 in Hrun by discriminate.
      cbn [orb] in Hrun. eapply IH. exact Hrun.
    + eapply IH. exact Hrun.
Qed.
End SecureListen.

(** X13.  The secure [Listen] never returns nil.  When it returns at all it
    returns the error that no address worked, also after an address was bound
    and its accept loop was ended through the quit channel: [listen] returns
    nil then, not [ErrClosed] or [ErrEOF], and the loop over the addresses
    goes on to the next address. *)
Theorem SecureTcpHost_Listen_never_returns_nil `{Env}
    (st st1 : SecureTcpHost.t) (w w1 : W) (e : option error) :
  SecureTcpHost.Listen st w = (Ok (st1, Returns e), w1) ->
  e = Some (errorString "No address worked for listening on this host").
Proof.
  unfold SecureTcpHost.Listen. apply listen_loop_never_nil.
Qed.

Lemma SecureTcpHost_Listen_never_returns_nil_witness :
  exists st1 w1 e,
    @SecureTcpHost.Listen sample_env closed_secure_host (world_listening one_failed_accept)
    = (Ok (st1, Returns e), w1)
    /\ e = Some (errorString "No address worked for listening on this host").
Proof.
  eexists _, _, _. split; [vm_compute; reflexivity|].
  eapply (@SecureTcpHost_Listen_never_returns_nil sample_env closed_secure_host _
            (world_listening one_failed_accept)).
  vm_compute. reflexivity.
Defined.

Section Receiver.
Context `{Env}.

Lemma negotiateListen_keeps_conn sc (w w1 : W) sc1 :
  SecureTcpConn.negotiateListen sc w = (Ok (sc1, None), w1) ->
  SecureTcpConn.tcpConn sc1 = SecureTcpConn.tcpConn sc.
Proof.
  unfold SecureTcpConn.negotiateListen, bind, ret, panic. intros Hn.
  repeat case_match; simplify_eq; reflexivity.
Qed.

(** X14 (both ways).  What the receiver of the secure [Listen] does with an
    accepted connection is decided by the negotiation alone. *)
Lemma receiver_cases (st : SecureTcpHost.t) (c : ptr) (w w1 : W) sc1 err (o : TcpConn.t) :
  SecureTcpConn.negotiateListen
    (SecureTcpConn.mk c (SecureTcpHost.HostIdentity st) zero_Identity) w
  = (Ok (sc1, err), w1) ->
  cell c w1 = Some o ->
  exists w2,
    SecureTcpHost.receiver st c w = (Ok tt, w2)
    /\ match err with
       | None =>
           spawned (trace w2)
           = spawned (trace w) ++ [EvGo c (Some (SecureTcpConn.identity sc1))]
           /\ cell c w2 = Some o
       | Some _ =>
           spawned (trace w2) = spawned (trace w)
           /\ exists o2, cell c w2 = Some o2 /\ TcpConn.closed o2 = true
       end.
Proof.
  intros Hn Hcell. destruct err as [e|].
  - destruct (receiver_drops_failed_negotiation st c w w1 sc1 e o Hn Hcell)
      as (w2 & Hr & Hclosed & Hsp).
    exists w2. split; [exact Hr|]. split; assumption.
  - pose proof (negotiateListen_spawns_nothing _ _ _ _ Hn) as Hsp.
    pose proof (negotiateListen_keeps_conn _ _ _ _ Hn) as Hptr.
    cbn [SecureTcpConn.tcpConn] in Hptr.
    unfold SecureTcpHost.receiver, bind at 1. rewrite Hn, Hptr.
    unfold emit. eexists. split; [reflexivity|]. cbn [trace]. split.
    + unfold spawned in *. rewrite List.filter_app, Hsp. reflexivity.
    + exact Hcell.
Qed.
End Receiver.

(** X14.  For an accepted connection the receiver of the secure [Listen]
    starts the handler goroutine exactly when the identity negotiation
    succeeded, and then with the identity the peer declared; when the
    negotiation failed it starts no handler and closes the connection. *)
Theorem secure_receiver_spawns_iff_negotiated `{Env}
    (st : SecureTcpHost.t) (c : ptr) (w w1 : W) sc1 err (o : TcpConn.t) :
  SecureTcpConn.negotiateListen
    (SecureTcpConn.mk c (SecureTcpHost.HostIdentity st) zero_Identity) w
  = (Ok (sc1, err), w1) ->
  cell c w1 = Some o ->
  exists w2,
    SecureTcpHost.receiver st c w = (Ok tt, w2)
    /\ match err with
       | None =>
           spawned (trace w2)
           = spawned (trace w) ++ [EvGo c (Some (SecureTcpConn.identity sc1))]
           /\ cell c w2 = Some o
       | Some _ =>
           spawned (trace w2) = spawned (trace w)
           /\ exists o2, cell c w2 = Some o2 /\ TcpConn.closed o2 = true
       end.
Proof. exact (receiver_cases st c w w1 sc1 err o). Qed.

Lemma secure_receiver_witness :
  (exists w2,
     @SecureTcpHost.receiver sample_env sample_host 1%nat
        (accepted_world [[Byte.x01; Byte.x09]]) = (Ok tt, w2)
     /\ spawned (trace w2) = [EvGo 1%nat (Some (sample_Identity 9%N))])
  /\ (exists w2,
        @SecureTcpHost.receiver sample_env sample_host 1%nat
           (accepted_world [[Byte.x02; Byte.x09]]) = (Ok tt, w2)
        /\ spawned (trace w2) = []
        /\ exists o2, cell 1%nat w2 = Some o2 /\ TcpConn.closed o2 = true).
Proof.
  split.
  - destruct (@secure_receiver_spawns_iff_negotiated sample_env sample_host 1%nat
                (accepted_world [[Byte.x01; Byte.x09]]) _
                (SecureTcpConn.mk 1%nat (sample_Identity 5%N) (sample_Identity 9%N))
                None _ eq_refl eq_refl) as (w2 & Hr & Hsp & _).
    exists w2. split; [exact Hr | exact Hsp].
  - destruct (@secure_receiver_spawns_iff_negotiated sample_env sample_host 1%nat
                (accepted_world [[Byte.x02; Byte.x09]]) _
                (SecureTcpConn.mk 1%nat (sample_Identity 5%N) zero_Identity)
                (Some (errorString "Received wrong type during negotiation Raw"))
                _ eq_refl eq_refl) as (w2 & Hr & Hsp & Hcl).
    exists w2. split; [exact Hr|]. split; [exact Hsp | exact Hcl].
Defined.

(** ** The TOML form of an identity *)

(** X15.  Writing an identity to its TOML form and reading it back keeps the
    addresses, and the public key when [ReadPub64] reads back what
    [WritePub64] wrote; but the id is not written and not computed again: the
    identity read back has the zero id and a cursor at 0.  So an identity
    whose id is not zero does not survive the round trip. *)
Theorem Toml_round_trip_loses_id `{Cliutils} (id : Identity.t) :
  fst (ReadPub64 (fst (WritePub64 (Identity.Public id)))) = Identity.Public id ->
  IdentityToml_Identity (Identity_Toml id)
  = Identity.mk (Identity.Public id) 0%N (Identity.Addresses id) 0
  /\ (Identity.Id id <> 0%N -> IdentityToml_Identity (Identity_Toml id) <> id).
Proof.
  intros Hrt. unfold IdentityToml_Identity, Identity_Toml.
  cbn [TomlPublic TomlAddresses]. rewrite Hrt. split; [reflexivity|].
  intros Hid Heq. apply Hid. rewrite <- Heq. reflexivity.
Qed.

Lemma Toml_round_trip_witness :
  let id := Identity.mk [Byte.x41; Byte.x42] 7%N ["10.0.0.1:2000"] 1 in
  @IdentityToml_Identity sample_cliutils (@Identity_Toml sample_cliutils id)
  = Identity.mk [Byte.x41; Byte.x42] 0%N ["10.0.0.1:2000"] 0
  /\ (7%N <> 0%N -> @IdentityToml_Identity sample_cliutils (@Identity_Toml sample_cliutils id) <> id).
Proof.
  exact (@Toml_round_trip_loses_id sample_cliutils
           (Identity.mk [Byte.x41; Byte.x42] 7%N ["10.0.0.1:2000"] 1) eq_refl).
Defined.

(** ** The root part of the driver *)

Section RootPart.
Import Simul.
Context `{Sda}.
Variables (sc : SimulationConfig) (env : Answers).

(** The counting loop only creates Count instances and never runs the
    simulation; when it ends with [Found], the passes before the last one
    delivered counts that differ from the tree size and the last one
    delivered the tree size. *)
Lemma count_loop_trace (fuel : nat) : forall k t,
  existsb is_Run (fst (count_loop fuel sc env k t)) = false
  /\ created_on "CloseAll" (fst (count_loop fuel sc env k t)) = []
  /\ (forall t', snd (count_loop fuel sc env k t) = Found t' ->
        exists n, (n < fuel)%nat
                  /\ mismatches sc env k n
                  /\ count_round env (k + n) = Count (Size (SCTree sc))).
Proof.
  induction fuel as [|fuel IH]; intros k t.
  - cbn. repeat split. intros t' [=].
  - cbn [count_loop]. destruct (count_round env k) as [err|count|] eqn:Ek.
    + cbn. repeat split. intros t' [=].
    + destruct (count =? Size (SCTree sc)) eqn:Ec.
      * cbn. repeat split. intros t' _. exists 0%nat. split; [lia|]. split.
        -- intros j Hj. lia.
        -- rewrite Nat.add_0_r, Ek. apply Z.eqb_eq in Ec. congruence.
      * destruct (IH (S k) (GoInt.mul t 2)) as (Hrun & Hcr & Hfound).
        destruct (count_loop fuel sc env (S k) (GoInt.mul t 2)) as [tr e].
        cbn [fst snd] in *. cbn. split; [exact Hrun|]. split; [exact Hcr|].
        intros t' He. destruct (Hfound t' He) as (n & Hn & Hm & Hlast).
        exists (S n). split; [lia|]. split.
        -- intros j Hj. destruct j as [|j].
           ++ rewrite Nat.add_0_r. exists count. split; [exact Ek|].
              apply Z.eqb_neq. exact Ec.
           ++ destruct (Hm j) as (c & Hc & Hne); [lia|].
              exists c. split; [|exact Hne]. rewrite <- Hc. f_equal. lia.
        -- rewrite <- Hlast. f_equal. lia.
    + cbn. repeat split. intros t' [=].
Qed.

Lemma root_part_cases (fuel : nat) :
  (existsb is_Run (fst (root_part fuel sc env)) = true
   \/ created_on "CloseAll" (fst (root_part fuel sc env)) <> []
   \/ snd (root_part fuel sc env) = Completed ->
   exists t', snd (count_loop fuel sc env 0 1000) = Found t')
  /\ (created_on "CloseAll" (fst (root_part fuel sc env)) <> []
      \/ snd (root_part fuel sc env) = Completed ->
      sim_run env = None).
Proof.
  unfold root_part.
  destruct (count_loop_trace fuel 0 1000) as (Hrun & Hcr & _).
  destruct (count_loop fuel sc env 0 1000) as [t1 e]. cbn [fst snd] in *.
  destruct e as [t'|err| |].
  - split; [eauto|].
    destruct (sim_run env) as [err|]; [|reflexivity].
    cbn [fst snd]. intros [Hc|Hc]; [|discriminate].
    exfalso. apply Hc. unfold created_on in *. rewrite !omap_app, Hcr.
    reflexivity.
  - cbn [fst snd]. split.
    + intros [Hr|[Hc|Hc]]; [congruence | contradiction | discriminate].
    + intros [Hc|Hc]; [contradiction | discriminate].
  - cbn [fst snd]. split.
    + intros [Hr|[Hc|Hc]]; [congruence | contradiction | discriminate].
    + intros [Hc|Hc]; [contradiction | discriminate].
  - cbn [fst snd]. split.
    + intros [Hr|[Hc|Hc]]; [congruence | contradiction | discriminate].
    + intros [Hc|Hc]; [contradiction | discriminate].
Qed.
End RootPart.

(** X16.  The root never runs the simulation before a Count round has
    returned the size of the tree: whenever [rootSim.Run] is reached, some
    pass of the counting loop delivered exactly the tree size, after passes
    that all delivered other counts. *)
Theorem simulation_runs_only_after_full_count `{Simul.Sda}
    (fuel : nat) (sc : Simul.SimulationConfig) (env : Simul.Answers) :
  In Simul.Run (fst (Simul.root_part fuel sc env)) ->
  exists n, (n < fuel)%nat
            /\ mismatches sc env 0 n
            /\ Simul.count_round env n = Simul.Count (Simul.Size (Simul.SCTree sc)).
Proof.
  intros Hin.
  assert (Hex : existsb is_Run (fst (Simul.root_part fuel sc env)) = true).
  { apply existsb_exists. exists Simul.Run. split; [exact Hin | reflexivity]. }
  destruct (proj1 (root_part_cases sc env fuel) (or_introl Hex)) as [t' Ht'].
  destruct (count_loop_trace sc env fuel 0 1000) as (_ & _ & Hfound).
  exact (Hfound t' Ht').
Qed.

Lemma simulation_runs_witness :
  exists n, (n < 5)%nat
            /\ mismatches three_nodes (late_answers three_nodes 2) 0 n
            /\ Simul.count_round (late_answers three_nodes 2) n
               = Simul.Count (Simul.Size (Simul.SCTree three_nodes)).
Proof.
  apply (@simulation_runs_only_after_full_count Sda_spec 5 three_nodes
           (late_answers three_nodes 2)).
  vm_compute. tauto.
Defined.



Section CountLoopEnds.
Import Simul.
Variables (sc : SimulationConfig) (env : Answers).

(** After [n] passes whose counts differ, a pass on which nothing arrives
    blocks the loop, and a pass whose Count instance cannot be created is
    fatal. *)
Lemma count_loop_stuck (n : nat) : forall k fuel,
  mismatches sc env k n ->
  (n < fuel)%nat ->
  match count_round env (k + n) with
  | NoCount =>
      snd (count_loop fuel sc env k (timeout_of_round k)) = LoopBlocks
      /\ timeouts (fst (count_loop fuel sc env k (timeout_of_round k)))
         = map timeout_of_round (seq k (S n))
  | CreateFails err =>
      snd (count_loop fuel sc env k (timeout_of_round k)) = LoopFatal err
      /\ timeouts (fst (count_loop fuel sc env k (timeout_of_round k)))
         = map timeout_of_round (seq k n)
  | Count _ => True
  end.
Proof.
  induction n as [|n IH]; intros k fuel Hm Hfuel.
  - destruct fuel as [|fuel]; [lia|]. rewrite Nat.add_0_r.
    cbn [count_loop]. destruct (count_round env k); [split; reflexivity | exact I |].
    split; reflexivity.
  - destruct fuel as [|fuel]; [lia|].
    apply mismatches_S in Hm. destruct Hm as [(c & Hc & Hne) Hm].
    specialize (IH (S k) fuel Hm ltac:(lia)).
    replace (k + S n)%nat with (S k + n)%nat by lia.
    cbn [count_loop]. rewrite Hc. apply Z.eqb_neq in Hne. rewrite Hne.
    cbn [timeout_of_round] in IH.
    destruct (count_round env (S k + n)); [| exact I |];
      destruct (count_loop fuel sc env (S k) (GoInt.mul (timeout_of_round k) 2)) as [tr e];
      cbn [fst snd] in *; destruct IH as [IH1 IH2]; (split; [exact IH1|]);
      cbn [seq map] in *; cbn; f_equal; exact IH2.
Qed.

(** The instances of a loop that blocks: every pass, the blocked one
    included, created its Count instance on the working tree, set its timeout
    and started it. *)
Lemma count_loop_stuck_calls (n : nat) : forall k fuel,
  mismatches sc env k n ->
  count_round env (k + n) = NoCount ->
  (n < fuel)%nat ->
  protocol_calls (fst (count_loop fuel sc env k (timeout_of_round k)))
  = count_passes sc k (S n).
Proof.
  induction n as [|n IH]; intros k fuel Hm Hno Hfuel.
  - destruct fuel as [|fuel]; [lia|]. rewrite Nat.add_0_r in Hno.
    cbn [count_loop]. rewrite Hno. reflexivity.
  - destruct fuel as [|fuel]; [lia|].
    apply mismatches_S in Hm. destruct Hm as [(c & Hc & Hne) Hm].
    assert (Hno' : count_round env (S k + n) = NoCount).
    { rewrite <- Hno. f_equal. lia. }
    specialize (IH (S k) fuel Hm Hno' ltac:(lia)).
    cbn [count_loop]. rewrite Hc. apply Z.eqb_neq in Hne. rewrite Hne.
    cbn [timeout_of_round] in IH.
    destruct (count_loop fuel sc env (S k) (GoInt.mul (timeout_of_round k) 2)) as [tr e].
    cbn [fst snd] in *. unfold count_passes in *.
    change (seq k (S (S n))) with (k :: seq (S k) (S n)). cbn [flat_map].
    rewrite <- IH. reflexivity.
Qed.
End CountLoopEnds.

(** X18.  The timeout set on a Count instance does not protect the root: when
    the counts of [n] passes differ and nothing ever arrives on the count
    channel of the next pass, the root part is blocked in that pass.  By then
    [n + 1] Count instances were created on the working tree, each given the
    timeout of its pass and started, and nothing else was done with a
    protocol: the simulation is never run. *)
Theorem root_blocks_when_no_count_arrives `{Simul.Sda}
    (fuel n : nat) (sc : Simul.SimulationConfig) (env : Simul.Answers) :
  mismatches sc env 0 n ->
  Simul.count_round env n = Simul.NoCount ->
  (n < fuel)%nat ->
  snd (Simul.root_part fuel sc env) = Simul.Blocked
  /\ protocol_calls (fst (Simul.root_part fuel sc env)) = count_passes sc 0 (S n)
  /\ Simul.timeouts (fst (Simul.root_part fuel sc env))
     = map Simul.timeout_of_round (seq 0 (S n))
  /\ ~ In Simul.Run (fst (Simul.root_part fuel sc env)).
Proof.
  intros Hm Hno Hfuel.
  pose proof (count_loop_stuck_calls sc env n 0 fuel Hm Hno Hfuel) as Hc.
  change (Simul.timeout_of_round 0) with 1000 in Hc.
  pose proof (count_loop_stuck sc env n 0 fuel Hm Hfuel) as Hs.
  cbn [Nat.add] in Hs. rewrite Hno in Hs. change (Simul.timeout_of_round 0) with 1000 in Hs.
  destruct (count_loop_trace sc env fuel 0 1000) as (Hrun & _ & _).
  unfold Simul.root_part.
  destruct (Simul.count_loop fuel sc env 0 1000) as [t1 e]. cbn [fst snd] in *.
  destruct Hs as [-> Ht]. cbn [fst snd]. split; [reflexivity|].
  split; [exact Hc|]. split; [exact Ht|].
  intros Hin.
  assert (Hex : existsb is_Run t1 = true).
  { apply existsb_exists. exists Simul.Run. split; [exact Hin | reflexivity]. }
  congruence.
Qed.

Lemma root_blocks_witness :
  snd (@Simul.root_part Sda_spec 9 three_nodes silent_third_round) = Simul.Blocked
  /\ protocol_calls (fst (@Simul.root_part Sda_spec 9 three_nodes silent_third_round))
     = count_passes three_nodes 0 3
  /\ Simul.timeouts (fst (@Simul.root_part Sda_spec 9 three_nodes silent_third_round))
     = [1000; 2000; 4000]
  /\ ~ In Simul.Run (fst (@Simul.root_part Sda_spec 9 three_nodes silent_third_round)).
Proof.
  apply (@root_blocks_when_no_count_arrives Sda_spec 9 2 three_nodes silent_third_round).
  - intros j Hj. exists 1. destruct j as [|[|j]]; [split; [reflexivity|discriminate] ..|lia].
  - reflexivity.
  - lia.
Defined.

Lemma timeout_of_round_S (n : nat) :
  Simul.timeout_of_round (S n) = GoInt.mul (Simul.timeout_of_round n) 2.
Proof. reflexivity. Qed.

Lemma timeout_of_round_61 : Simul.timeout_of_round 61 = 0.
Proof. vm_compute. reflexivity. Qed.

Lemma timeout_of_round_zero (k : nat) : (61 <= k)%nat -> Simul.timeout_of_round k = 0.
Proof.
  intros Hk. induction Hk as [|k Hk IH]; [exact timeout_of_round_61|].
  rewrite timeout_of_round_S, IH. reflexivity.
Qed.

(** X19.  When the counts keep differing, the doubling of the timeout in [int]
    ends in 0: pass 61 and every later pass is started with the timeout 0. *)
Theorem count_timeout_is_zero_from_round_61
    (sc : Simul.SimulationConfig) (env : Simul.Answers) (fuel k : nat) :
  mismatches sc env 0 fuel ->
  (61 <= k < fuel)%nat ->
  Simul.timeouts (fst (Simul.count_loop fuel sc env 0 1000)) !! k = Some 0.
Proof.
  intros Hm Hk.
  destruct (count_loop_goes_on sc env fuel 0 Hm) as [_ Ht].
  change (Simul.timeout_of_round 0) with 1000 in Ht. rewrite Ht.
  rewrite list_lookup_fmap, lookup_seq_lt by lia. cbn [fmap option_fmap option_map Nat.add].
  rewrite timeout_of_round_zero by lia. reflexivity.
Qed.

Lemma count_timeout_zero_witness :
  mismatches three_nodes never_counted 0 70
  /\ Simul.timeouts (fst (Simul.count_loop 70 three_nodes never_counted 0 1000)) !! 65%nat
     = Some 0.
Proof.
  assert (Hm : mismatches three_nodes never_counted 0 70).
  { intros j _. exists 0. split; [reflexivity | discriminate]. }
  split; [exact Hm|].
  apply (count_timeout_is_zero_from_round_61 three_nodes never_counted 70 65 Hm). lia.
Defined.

(** ** [main]: starting the hosts and choosing the root (cothority.go lines 44-100
    and 165-168) *)

(** When every simulation can be made the loop runs to its end: it has started
    every host and made every simulation, in order, and is left with the last
    root it met. *)
Lemma start_hosts_trace (scs : list HostConfig) : forall i root,
  Forall startable scs ->
  start_hosts i scs root = (start_events i scs, inl (pick_root scs root)).
Proof.
  induction scs as [|sc scs IH]; intros i root Hok; [reflexivity|].
  inversion Hok as [|? ? (Hnew & Hnode & Htree) Hok']; subst.
  change (pick_root (sc :: scs) root)
    with (pick_root scs (if is_root sc then Some sc else root)).
  cbn [start_hosts start_events]. rewrite Hnew, Hnode.
  destruct (Simul.Nodes (Simul.SCTree (HCConfig sc))) as [|r nodes] eqn:En;
    [contradiction|].
  assert (Hisroot : is_root sc = N.eqb (HCHost sc) r)
    by (unfold is_root; rewrite En; reflexivity).
  rewrite Hisroot.
  rewrite (IH (S i) (if N.eqb (HCHost sc) r then Some sc else root) Hok').
  reflexivity.
Qed.

Lemma start_hosts_fatal (pre : list HostConfig) : forall i root bad post err,
  Forall startable pre ->
  HCNewSimulation bad = Some err
  \/ (HCNewSimulation bad = None /\ HCNode bad = Some err) ->
  exists tr,
    start_hosts i (pre ++ bad :: post) root = (tr, inr (Simul.Fatal err))
    /\ started_hosts tr = map HCHost pre ++ [HCHost bad]
    /\ root_events tr = []
    /\ ~ In EvWait tr.
Proof.
  induction pre as [|sc pre IH]; intros i root bad post err Hok Hbad.
  - cbn [app start_hosts].
    destruct Hbad as [Hnew|[Hnew Hnode]]; rewrite Hnew; [|rewrite Hnode];
      (eexists; split; [reflexivity|]; cbn; repeat split;
       intros H; repeat (destruct H as [H|H]; try discriminate); exact H).
  - inversion Hok as [|? ? (Hnew & Hnode & Htree) Hok']; subst.
    cbn [app start_hosts]. rewrite Hnew, Hnode.
    destruct (Simul.Nodes (Simul.SCTree (HCConfig sc))) as [|r nodes]; [contradiction|].
    destruct (IH (S i) (if N.eqb (HCHost sc) r then Some sc else root) bad post err Hok' Hbad)
      as (tr & Hrun & Hst & Hre & Hw).
    rewrite Hrun. eexists. split; [reflexivity|]. cbn. repeat split.
    + f_equal. exact Hst.
    + exact Hre.
    + intros [H|[H|[H|H]]]; try discriminate. exact (Hw H).
Qed.

Lemma pick_root_none (scs : list HostConfig) : forall root,
  Forall (fun x => is_root x = false) scs -> pick_root scs root = root.
Proof.
  induction scs as [|sc scs IH]; intros root Hno; [reflexivity|].
  inversion Hno as [|? ? Hsc Hno']; subst.
  cbn [pick_root fold_left]. rewrite Hsc. apply IH. exact Hno'.
Qed.

Lemma pick_root_last (pre : list HostConfig) : forall root r post,
  is_root r = true ->
  Forall (fun x => is_root x = false) post ->
  pick_root (pre ++ r :: post) root = Some r.
Proof.
  induction pre as [|sc pre IH]; intros root r post Hr Hpost.
  - cbn [app pick_root fold_left]. rewrite Hr. apply (pick_root_none post). exact Hpost.
  - cbn [app pick_root fold_left]. apply IH; assumption.
Qed.

Lemma connect_events (monitorAddress : string) (connect : option error) :
  let e0 := connect_sink monitorAddress connect in
  started_hosts e0 = [] /\ root_events e0 = [] /\ ~ In EvWait e0.
Proof.
  unfold connect_sink.
  destruct (String.eqb monitorAddress ""); cbn; [repeat split; intros []|].
  destruct connect; cbn; repeat split;
    intros H; repeat (destruct H as [H|H]; try discriminate); exact H.
Qed.

(** X20.  When the simulation of every entry can be made, [main] first
    connects the monitor, then starts the host and makes the simulation of
    every entry, in order, and only then runs the root part, once, for the
    last entry whose host is the root of its tree: the entries that are roots
    before it are overridden.  When that root part does not complete, the run
    ends as it ends.  When it completes, [main] waits for the hosts: if the
    goroutine of every host ends, [monitor.EndAndCleanup] is called and the
    run completes; if one never ends, [main] stays blocked in [wg.Wait()]. *)
Theorem main_runs_root_part_of_last_root `{Simul.Sda}
    (fuel : nat) (monitorAddress : string) (connect : option error)
    (pre post : list HostConfig) (r : HostConfig) :
  Forall startable (pre ++ r :: post) ->
  is_root r = true ->
  Forall (fun x => is_root x = false) post ->
  let scs := pre ++ r :: post in
  let run := main fuel monitorAddress connect (scs, None) in
  let root := Simul.root_part fuel (HCConfig r) (HCAnswers r) in
  fst run
  = connect_sink monitorAddress connect ++ start_events 0 scs ++ map EvRoot (fst root)
    ++ match snd root with
       | Simul.Completed =>
           EvWait :: (if forallb HCCloses scs then [EvEndAndCleanup] else [])
       | _ => []
       end
  /\ snd run
     = match snd root with
       | Simul.Completed =>
           if forallb HCCloses scs then Simul.Completed else Simul.Blocked
       | x => x
       end.
Proof.
  intros Hok Hr Hpost scs.
  assert (Hpick : pick_root scs None = Some r)
    by exact (pick_root_last pre None r post Hr Hpost).
  assert (Hne : exists a l, scs = a :: l).
  { unfold scs. destruct pre; cbn; eauto. }
  pose proof (start_hosts_trace scs 0 None Hok) as Hrun.
  clearbody scs. destruct Hne as (a & l & ->).
  intros run root. unfold run, root, main.
  rewrite Hrun, Hpick.
  destruct (Simul.root_part fuel (HCConfig r) (HCAnswers r)) as [tr2 x].
  cbn [fst snd].
  destruct x; cbn [fst snd]; rewrite ?app_nil_r; try (split; reflexivity).
  destruct (forallb HCCloses (a :: l)); split; reflexivity.
Qed.

Lemma main_runs_root_part_witness :
  let scs := [root_entry 4%N; root_entry 5%N; leaf_entry 2%N] in
  let run := @main Sda_spec 3 "" None (scs, None) in
  let root := @Simul.root_part Sda_spec 3 (HCConfig (root_entry 5%N)) all_counted in
  snd root = Simul.Completed
  /\ fst run
     = [EvStartHost 4%N; EvNewSimulation 0; EvNode 0;
        EvStartHost 5%N; EvNewSimulation 1; EvNode 1;
        EvStartHost 2%N; EvNewSimulation 2; EvNode 2]
       ++ map EvRoot (fst root) ++ [EvWait; EvEndAndCleanup]
  /\ snd run = Simul.Completed.
Proof.
  split; [reflexivity|].
  apply (@main_runs_root_part_of_last_root Sda_spec 3 "" None
           [root_entry 4%N] [leaf_entry 2%N] (root_entry 5%N)).
  - repeat constructor; discriminate.
  - reflexivity.
  - repeat constructor.
Defined.

(** X21.  [log.Fatal] on the first entry whose simulation cannot be made
    ([NewSimulation] or [Node] returns an error) ends [main] there: the hosts
    of the entries up to that one have been started, those after it are not,
    and no root part is run, also when an entry before it is a root. *)
Theorem main_aborts_at_first_failing_simulation `{Simul.Sda}
    (fuel : nat) (monitorAddress : string) (connect : option error)
    (pre post : list HostConfig) (bad : HostConfig) (err : error) :
  Forall startable pre ->
  HCNewSimulation bad = Some err
  \/ (HCNewSimulation bad = None /\ HCNode bad = Some err) ->
  let run := main fuel monitorAddress connect (pre ++ bad :: post, None) in
  snd run = Simul.Fatal err
  /\ started_hosts (fst run) = map HCHost pre ++ [HCHost bad]
  /\ root_events (fst run) = []
  /\ ~ In EvWait (fst run).
Proof.
  intros Hok Hbad run. unfold run, main.
  destruct (start_hosts_fatal pre 0 None bad post err Hok Hbad) as (tr & Hrun & Hst & Hre & Hw).
  rewrite Hrun.
  destruct (connect_events monitorAddress connect) as (Hs0 & Hr0 & Hw0).
  cbv zeta in Hs0, Hr0, Hw0. cbn [fst snd].
  unfold started_hosts, root_events in *. rewrite !omap_app, Hs0, Hr0, Hst, Hre.
  repeat split. intros Hin. apply in_app_or in Hin. tauto.
Qed.

Lemma main_aborts_witness :
  let run := @main Sda_spec 3 "" None
               ([root_entry 4%N; failing_entry 5%N; leaf_entry 2%N], None) in
  snd run = Simul.Fatal (errorString "node setup failed")
  /\ started_hosts (fst run) = [4; 5]%N
  /\ root_events (fst run) = []
  /\ ~ In EvWait (fst run).
Proof.
  apply (@main_aborts_at_first_failing_simulation Sda_spec 3 "" None
           [root_entry 4%N] [leaf_entry 2%N] (failing_entry 5%N)
           (errorString "node setup failed")).
  - repeat constructor; discriminate.
  - right. split; reflexivity.
Defined.

(** X22.  When loading the configuration returns an error, [main] returns at
    once: no host is started.  When no entry is a root, [main] connects the
    monitor, starts every host and makes every simulation, runs no protocol
    and then waits for the hosts: if the goroutine of every host ends,
    [monitor.EndAndCleanup] is called and the run completes; if one never
    ends, [main] stays blocked in [wg.Wait()].  With no entry at all and no
    error it panics, indexing [scs[0]] for its log line, before it waits. *)
Theorem main_without_root `{Simul.Sda}
    (fuel : nat) (monitorAddress : string) (connect : option error)
    (scs : list HostConfig) :
  (forall err, main fuel monitorAddress connect (scs, Some err) = ([], Simul.Completed))
  /\ (Forall startable scs ->
      Forall (fun x => is_root x = false) scs ->
      let run := main fuel monitorAddress connect (scs, None) in
      fst run
      = connect_sink monitorAddress connect ++ start_events 0 scs
        ++ match scs with
           | [] => []
           | _ :: _ => EvWait :: (if forallb HCCloses scs then [EvEndAndCleanup] else [])
           end
      /\ snd run = match scs with
                   | [] => Simul.Panics "index out of range"
                   | _ :: _ =>
                       if forallb HCCloses scs then Simul.Completed else Simul.Blocked
                   end).
Proof.
  split; [reflexivity|].
  intros Hok Hno run. unfold run, main.
  rewrite (start_hosts_trace scs 0 None Hok), (pick_root_none scs None Hno).
  destruct scs as [|a l]; [split; reflexivity|].
  destruct (forallb HCCloses (a :: l)); split; reflexivity.
Qed.

Lemma main_without_root_witness :
  let scs := [leaf_entry 2%N; hanging_entry 3%N] in
  let run := @main Sda_spec 3 "10.0.0.7:3000" (Some (errorString "no sink")) (scs, None) in
  fst run
  = [EvConnectSink "10.0.0.7:3000"; EvLogError "Couldn't connect monitor to sink:";
     EvStartHost 2%N; EvNewSimulation 0; EvNode 0;
     EvStartHost 3%N; EvNewSimulation 1; EvNode 1; EvWait]
  /\ snd run = Simul.Blocked.
Proof.
  apply (proj2 (@main_without_root Sda_spec 3 "10.0.0.7:3000" (Some (errorString "no sink"))
                  [leaf_entry 2%N; hanging_entry 3%N])).
  - repeat constructor; discriminate.
  - repeat constructor.
Defined.
